(** * zkArchive backend: a shallow embedding of [server.js] and [db.js]

    The development follows the two source files of the service:

    - [Js]     the fragment of JavaScript the handlers rely on: dynamically
               typed values, truthiness, [||], the string methods
               [toLowerCase], [trim] and [split], exceptions and [try/catch];
    - [Db]     [db.js]: [ensureDataDir], [loadDb], [saveDb] over a model of
               the [data/] directory and of [data/archives.json];
    - [Cors]   the allow-list and the origin callback of [server.js], with the
               global error handler;
    - [Server] the three routes [POST /api/upload], [GET /api/files] and
               [GET /api/files/:id] over the in-memory [archives] array.

    Strings are Rocq strings (sequences of 8-bit characters); [toLowerCase]
    and [trim] act on the ASCII range, where they agree with the JavaScript
    methods.

    The later parts add [Multer] (the storage file name and the size limit
    of the upload middleware), [App] (the gateway in front of the routes),
    [Route] (the upload middleware in front of its handler) and what a run
    of requests does to the store and to the disk. *)

From Stdlib Require Import String Ascii List Bool Arith Lia.
From Stdlib Require Import ZArith DecimalString DecimalN.
Import ListNotations.

Local Open Scope string_scope.
Local Open Scope list_scope.

(* ================================================================== *)
(** * The JavaScript fragment *)
(* ================================================================== *)

Module Js.

(** A value as a handler can meet it in [req.body] or [req.query]: a field
    that is absent reads [undefined], a field sent once is a string, and a
    field sent several times (or with a bracketed name) is an array.  [Arr]
    stands for every object value: all of them are truthy, have [typeof]
    ["object"] and carry no callable [toLowerCase]. *)
Inductive value : Type :=
| Undefined
| Null
| Str (s : string)
| Arr (items : list string).

(** [ToBoolean]: [undefined], [null] and the empty string are falsy. *)
Definition truthy (v : value) : bool :=
  match v with
  | Undefined => false
  | Null => false
  | Str s => negb (s =? "")
  | Arr _ => true
  end.

Definition typeof (v : value) : string :=
  match v with
  | Undefined => "undefined"
  | Null => "object"
  | Str _ => "string"
  | Arr _ => "object"
  end.

(** [a || b] *)
Definition or (a b : value) : value := if truthy a then a else b.

(** [a || b] where [a] is a string or [undefined] and [b] a string. *)
Definition or_string (a : option string) (b : string) : string :=
  match a with
  | Some s => if s =? "" then b else s
  | None => b
  end.

(** [!a] for a string or [undefined]. *)
Definition falsy_string (a : option string) : bool :=
  match a with
  | Some s => s =? ""
  | None => true
  end.

(** ** Exceptions *)

Inductive error : Type :=
| TypeError (msg : string)
| SyntaxError (msg : string)
| SystemError (code : string)
| Error (msg : string).

Definition message (e : error) : string :=
  match e with
  | TypeError m => m
  | SyntaxError m => m
  | SystemError c => c
  | Error m => m
  end.

Inductive completion (A : Type) : Type :=
| Normal (a : A)
| Throw (e : error).

Arguments Normal {A} a.
Arguments Throw {A} e.

(** A computation over a mutable state [S] that returns or throws.  What a
    computation did to the state before it threw stays done. *)
Definition M (S A : Type) : Type := S -> completion A * S.

Definition ret {S A} (a : A) : M S A := fun s => (Normal a, s).

Definition throw {S A} (e : error) : M S A := fun s => (Throw e, s).

Definition bind {S A B} (m : M S A) (k : A -> M S B) : M S B :=
  fun s =>
    match m s with
    | (Normal a, s') => k a s'
    | (Throw e, s') => (Throw e, s')
    end.

(** [try { m } catch (err) { h err }] *)
Definition try_catch {S A} (m : M S A) (h : error -> M S A) : M S A :=
  fun s =>
    match m s with
    | (Normal a, s') => (Normal a, s')
    | (Throw e, s') => h e s'
    end.

Definition get {S} : M S S := fun s => (Normal s, s).

Definition modify {S} (f : S -> S) : M S unit := fun s => (Normal tt, f s).

(** [Array.prototype.filter] with a callback that may throw: the elements are
    visited in order and the first exception ends the traversal. *)
Fixpoint filter {S A} (p : A -> M S bool) (l : list A) : M S (list A) :=
  match l with
  | [] => ret []
  | a :: l' =>
      bind (p a) (fun keep =>
      bind (filter p l') (fun rest =>
      ret (if keep then a :: rest else rest)))
  end.

(** ** String methods *)

Definition lower_ascii (c : ascii) : ascii :=
  let n := nat_of_ascii c in
  if ((65 <=? n) && (n <=? 90))%nat then ascii_of_nat (n + 32) else c.

(** [String.prototype.toLowerCase] *)
Fixpoint toLowerCase (s : string) : string :=
  match s with
  | EmptyString => EmptyString
  | String c r => String (lower_ascii c) (toLowerCase r)
  end.

(** [v.toLowerCase()] on a dynamically typed receiver: only a string has the
    method; on anything else the call is a [TypeError]. *)
Definition call_toLowerCase {S} (v : value) : M S string :=
  match v with
  | Str s => ret (toLowerCase s)
  | Undefined | Null => throw (TypeError "Cannot read properties of undefined")
  | Arr _ => throw (TypeError "toLowerCase is not a function")
  end.

(** White space of the ASCII range: space, tab, line feed, vertical tab,
    form feed, carriage return. *)
Definition is_space (c : ascii) : bool :=
  let n := nat_of_ascii c in
  ((n =? 32) || ((9 <=? n) && (n <=? 13)))%nat.

Fixpoint trimStart (s : string) : string :=
  match s with
  | EmptyString => EmptyString
  | String c r => if is_space c then trimStart r else s
  end.

Fixpoint trimEnd (s : string) : string :=
  match s with
  | EmptyString => EmptyString
  | String c r =>
      match trimEnd r with
      | EmptyString => if is_space c then EmptyString else String c EmptyString
      | r' => String c r'
      end
  end.

(** [String.prototype.trim] *)
Definition trim (s : string) : string := trimEnd (trimStart s).

(** [s.split(sep)] for a one-character separator: never the empty list, the
    empty string splits into one empty piece. *)
Fixpoint split (sep : ascii) (s : string) : list string :=
  match s with
  | EmptyString => [EmptyString]
  | String c r =>
      if Ascii.eqb c sep then EmptyString :: split sep r
      else
        match split sep r with
        | [] => [String c EmptyString]
        | piece :: pieces => String c piece :: pieces
        end
  end.

(** [[...new Set(l)]]: every element once, at the place of its first
    occurrence.  [seen] holds the set built so far, in insertion order. *)
Fixpoint Set_spread (seen l : list string) : list string :=
  match l with
  | [] => seen
  | x :: l' =>
      Set_spread (if existsb (String.eqb x) seen then seen else seen ++ [x]) l'
  end.

End Js.

Declare Scope js_scope.
Delimit Scope js_scope with js.
Notation "x <- c ;; k" := (Js.bind c (fun x => k))
  (at level 61, c at next level, right associativity) : js_scope.
Notation "c ;; k" := (Js.bind c (fun _ => k))
  (at level 61, right associativity) : js_scope.

(* ================================================================== *)
(** * [db.js]: the metadata store *)
(* ================================================================== *)

Module Db.

Import Js.
Local Open Scope js_scope.

(** The part of the file system [db.js] touches: the directory [DATA_DIR]
    and, inside it, the file [DB_FILE] with its text. *)
Inductive tree : Type :=
| NoDir
| Dir (file : option string).

(** The world of [db.js].  [faults] is the fate of the coming system calls
    that can fail ([mkdirSync], [writeFileSync], [readFileSync]), one entry
    per call, [true] for a call the operating system refuses; past its end
    every call goes through.  [console] collects what [console.error] and
    [console.warn] print. *)
Record world : Type := {
  files : tree;
  faults : list bool;
  console : list string
}.

(** The text of [DB_FILE], when the file exists. *)
Definition db_text (w : world) : option string :=
  match files w with
  | Dir file => file
  | NoDir => None
  end.

(** No coming system call is refused. *)
Definition undisturbed (w : world) : Prop :=
  Forall (fun refused => refused = false) (faults w).

Definition set_files (t : tree) (w : world) : world :=
  {| files := t; faults := faults w; console := console w |}.

Definition next_fault : M world bool :=
  fun w =>
    match faults w with
    | [] => (Normal false, w)
    | refused :: later =>
        (Normal refused,
         {| files := files w; faults := later; console := console w |})
    end.

Definition console_error (line : string) : M world unit :=
  modify (fun w =>
    {| files := files w; faults := faults w; console := console w ++ [line] |}).

(** [fs.existsSync(DATA_DIR)] *)
Definition existsSync_DATA_DIR : M world bool :=
  w <- get ;;
  ret (match files w with NoDir => false | Dir _ => true end).

(** [fs.existsSync(DB_FILE)] *)
Definition existsSync_DB_FILE : M world bool :=
  w <- get ;;
  ret (match files w with Dir (Some _) => true | _ => false end).

(** [fs.mkdirSync(DATA_DIR, { recursive: true })] *)
Definition mkdirSync_DATA_DIR : M world unit :=
  refused <- next_fault ;;
  if (refused : bool) then throw (SystemError "EACCES")
  else
    modify (fun w =>
      match files w with
      | NoDir => set_files (Dir None) w
      | Dir _ => w
      end).

(** [fs.writeFileSync(DB_FILE, text, "utf8")] *)
Definition writeFileSync_DB_FILE (text : string) : M world unit :=
  refused <- next_fault ;;
  if (refused : bool) then throw (SystemError "EACCES")
  else
    w <- get ;;
    match files w with
    | NoDir => throw (SystemError "ENOENT")
    | Dir _ => modify (set_files (Dir (Some text)))
    end.

(** [fs.readFileSync(DB_FILE, "utf8")] *)
Definition readFileSync_DB_FILE : M world string :=
  refused <- next_fault ;;
  if (refused : bool) then throw (SystemError "EACCES")
  else
    w <- get ;;
    match files w with
    | Dir (Some text) => ret text
    | _ => throw (SystemError "ENOENT")
    end.

(** What [JSON.parse] hands back, as far as [db.js] looks at it: an array
    with its elements, or a value that is no array. *)
Inductive json (element : Type) : Type :=
| JsonArray (items : list element)
| JsonOther.

Arguments JsonArray {element} items.
Arguments JsonOther {element}.

(** The global [JSON] object over arrays of [element]s.  [JSON_parse] is
    [None] where [JSON.parse] throws a [SyntaxError]. *)
Class JSON (element : Type) : Type := {
  JSON_parse : string -> option (json element);
  JSON_stringify : list element -> string
}.

Definition parse {element} `{JSON element} (raw : string)
  : M world (json element) :=
  match JSON_parse raw with
  | Some v => ret v
  | None => throw (SyntaxError "Unexpected token in JSON")
  end.

Definition ensureDataDir : M world unit :=
  present <- existsSync_DATA_DIR ;;
  if negb present then mkdirSync_DATA_DIR else ret tt.

Definition loadDb {element} `{JSON element} : M world (list element) :=
  try_catch
    (ensureDataDir ;;
     present <- existsSync_DB_FILE ;;
     if negb present then
       writeFileSync_DB_FILE (JSON_stringify []) ;;
       ret []
     else
       raw <- readFileSync_DB_FILE ;;
       parsed <- parse raw ;;
       match parsed with
       | JsonOther => ret []
       | JsonArray items => ret items
       end)
    (fun err =>
       console_error ("Failed to load DB: " ++ message err) ;;
       ret []).

Definition saveDb {element} `{JSON element} (data : list element)
  : M world unit :=
  try_catch
    (ensureDataDir ;;
     writeFileSync_DB_FILE (JSON_stringify data))
    (fun err => console_error ("Failed to save DB: " ++ message err)).

End Db.

(* ================================================================== *)
(** * [server.js]: responses and archive records *)
(* ================================================================== *)

(** The archive record the upload route builds.  [hash] and [walletAddress]
    are copied from the form as they came; the other fields are strings and
    numbers made by the server or by the upload middleware. *)
Record Archive : Type := {
  id : string;
  name : string;
  size : nat;
  mimeType : string;
  hash : Js.value;
  walletAddress : Js.value;
  storagePath : string;
  createdAt : string
}.

(** What [res.json] sends. *)
Inductive payload : Type :=
| ErrorJson (error : string)
| UploadJson (success : bool) (archive : Archive)
| ItemsJson (items : list Archive)
| ArchiveJson (archive : Archive).

(** [res.status(status).json(json)]; [res.json] alone answers 200. *)
Record response : Type := {
  status : nat;
  json : payload
}.

(* ================================================================== *)
(** * [server.js]: the CORS gateway *)
(* ================================================================== *)

Module Cors.

Import Js.
Local Open Scope js_scope.

Definition defaultAllowedOrigins : list string :=
  [ "https://zkarchive.us";
    "https://app.zkarchive.us";
    "https://useodds.fun";
    "http://localhost:3000";
    "http://localhost:5173" ].

(** [process.env.CORS_ORIGINS.split(",").map((o) => o.trim()).filter(Boolean)] *)
Definition extra (env : string) : list string :=
  List.filter (fun o => negb (o =? "")) (map trim (split "," env)).

(** The allow-list as the module computes it once at start-up from
    [process.env.CORS_ORIGINS], which is a string or [undefined]. *)
Definition allowedOrigins (CORS_ORIGINS : option string) : list string :=
  match CORS_ORIGINS with
  | Some env =>
      if negb (env =? "") then
        Set_spread [] (defaultAllowedOrigins ++ extra env)
      else defaultAllowedOrigins
  | None => defaultAllowedOrigins
  end.

(** [allowedOrigins.includes(origin)] *)
Definition includes (allowed : list string) (origin : option string) : bool :=
  match origin with
  | Some o => existsb (String.eqb o) allowed
  | None => false
  end.

Definition console_warn (line : string) : M Db.world unit :=
  Db.console_error line.

(** The [origin] option handed to [cors(...)].  [origin] is
    [req.headers.origin]: the header's text, or [undefined] when the request
    has no such header.  [callback(null, true)] is a normal return of [true],
    [callback(err)] a throw of [err]. *)
Definition origin_callback (allowed : list string) (origin : option string)
  : M Db.world bool :=
  if falsy_string origin then ret true
  else if includes allowed origin then ret true
  else
    console_warn ("Blocked by CORS: " ++ or_string origin "") ;;
    throw (Error "Not allowed by CORS").

(** How a middleware hands over: [next()] or [next(err)]. *)
Inductive next : Type :=
| Next
| NextError (err : error).

(** The middleware [cors] builds around the callback: an error of the
    callback goes to [next(err)], otherwise the request proceeds. *)
Definition cors (allowed : list string) (origin : option string)
  : M Db.world next :=
  try_catch
    (_ <- origin_callback allowed origin ;; ret Next)
    (fun err => ret (NextError err)).

(** The global error handler, last in the middleware chain. *)
Definition error_handler (err : error) : M Db.world response :=
  Db.console_error ("Unhandled error: " ++ message err) ;;
  if message err =? "Not allowed by CORS" then
    ret {| status := 403; json := ErrorJson "CORS blocked" |}
  else
    ret {| status := 500; json := ErrorJson "Internal server error" |}.

(** The answer of the error handler to a CORS rejection. *)
Definition blocked : response :=
  {| status := 403; json := ErrorJson "CORS blocked" |}.

(** The gateway a request crosses before any route: [None] when it is let
    through to the routes, [Some r] when the error handler answered [r]. *)
Definition gateway (CORS_ORIGINS origin : option string)
  : M Db.world (option response) :=
  n <- cors (allowedOrigins CORS_ORIGINS) origin ;;
  match n with
  | Next => ret None
  | NextError err => r <- error_handler err ;; ret (Some r)
  end.

End Cors.

(* ================================================================== *)
(** * [server.js]: the routes *)
(* ================================================================== *)

(** [req.file] as the upload middleware leaves it after storing the blob:
    the client's file name and declared type, the stored size in bytes and
    the name the storage engine generated. *)
Module File.

Record t : Type := {
  originalname : option string;
  size : nat;
  mimetype : option string;
  filename : string
}.

End File.

Module Server.

Import Js.
Local Open Scope js_scope.

(** An upload request after [upload.single("file")]: [req.file] (absent
    when the form had no file part) and the two fields read from
    [req.body]. *)
Record upload_request : Type := {
  file : option File.t;
  body_hash : value;
  body_walletAddress : value
}.

(** The process state: the array [archives] and the world of [db.js]. *)
Record state : Type := {
  archives : list Archive;
  world : Db.world
}.

Definition on_world {A} (m : M Db.world A) : M state A :=
  fun s =>
    let (r, w) := m (world s) in
    (r, {| archives := archives s; world := w |}).

(** [archives.unshift(archive)] *)
Definition unshift (archive : Archive) : M state unit :=
  modify (fun s => {| archives := archive :: archives s; world := world s |}).

Definition console_error (line : string) : M state unit :=
  on_world (Db.console_error line).

Definition internal_server_error : response :=
  {| status := 500; json := ErrorJson "Internal server error" |}.

(** [POST /api/upload].  [uuid] is what [uuidv4()] returns when the handler
    calls it and [now] what [new Date().toISOString()] returns. *)
Definition upload `{Db.JSON Archive} (uuid now : string) (req : upload_request)
  : M state response :=
  try_catch
    (match file req with
     | None => ret {| status := 400; json := ErrorJson "File is required" |}
     | Some file =>
         let hash := body_hash req in
         let walletAddress := body_walletAddress req in
         if negb (truthy hash) || negb (typeof hash =? "string") then
           ret {| status := 400; json := ErrorJson "Field 'hash' is required" |}
         else
           let archive :=
             {| id := uuid;
                name := or_string (File.originalname file) "encrypted-file";
                size := File.size file;
                mimeType :=
                  or_string (File.mimetype file) "application/octet-stream";
                hash := hash;
                walletAddress := Js.or walletAddress Null;
                storagePath := File.filename file;
                createdAt := now |} in
           unshift archive ;;
           s <- get ;;
           on_world (Db.saveDb (archives s)) ;;
           ret {| status := 201; json := UploadJson true archive |}
     end)
    (fun err =>
       console_error ("Upload error: " ++ message err) ;;
       ret internal_server_error).

(** The callback of [archives.filter] in [GET /api/files]. *)
Definition wallet_matches {S} (wallet : value) (a : Archive) : M S bool :=
  mine <- call_toLowerCase (Js.or (walletAddress a) (Str "")) ;;
  theirs <- call_toLowerCase wallet ;;
  ret (mine =? theirs).

(** [GET /api/files], with [wallet] read from [req.query]. *)
Definition list_files (wallet : value) : M state response :=
  try_catch
    (s <- get ;;
     if truthy wallet then
       items <- Js.filter (wallet_matches wallet) (archives s) ;;
       ret {| status := 200; json := ItemsJson items |}
     else
       ret {| status := 200; json := ItemsJson (archives s) |})
    (fun err =>
       console_error ("List files error: " ++ message err) ;;
       ret internal_server_error).

(** [GET /api/files/:id], with [id0] read from [req.params]. *)
Definition get_file (id0 : string) : M state response :=
  try_catch
    (s <- get ;;
     match find (fun a => id a =? id0) (archives s) with
     | None => ret {| status := 404; json := ErrorJson "Archive not found" |}
     | Some archive => ret {| status := 200; json := ArchiveJson archive |}
     end)
    (fun err =>
       console_error ("Get file metadata error: " ++ message err) ;;
       ret internal_server_error).

(** A request to one of the three routes as it reaches its handler (an
    upload, after [upload.single("file")] handed it on), with what the
    environment supplies while it is served. *)
Inductive request : Type :=
| POST_upload (uuid now : string) (req : upload_request)
| GET_files (wallet : value)
| GET_file (id0 : string).

Definition route `{Db.JSON Archive} (r : request) : M state response :=
  match r with
  | POST_upload uuid now req => upload uuid now req
  | GET_files wallet => list_files wallet
  | GET_file id0 => get_file id0
  end.

(** One request served by its handler: an exception that escapes a handler
    reaches the global error handler. *)
Definition serve `{Db.JSON Archive} (r : request) (s : state)
  : response * state :=
  match route r s with
  | (Normal res, s') => (res, s')
  | (Throw err, s') =>
      match on_world (Cors.error_handler err) s' with
      | (Normal res, s'') => (res, s'')
      | (Throw _, s'') => (internal_server_error, s'')
      end
  end.

(** The upload route gets past its two guards: the request carries a file
    and a [hash] field that is a string and not empty. *)
Definition accepts (req : upload_request) : bool :=
  match file req, body_hash req with
  | Some _, Str h => negb (h =? "")
  | _, _ => false
  end.

(** The record the upload route builds for an accepted request. *)
Definition created (uuid now : string) (file : File.t) (req : upload_request)
  : Archive :=
  {| id := uuid;
     name := or_string (File.originalname file) "encrypted-file";
     size := File.size file;
     mimeType := or_string (File.mimetype file) "application/octet-stream";
     hash := body_hash req;
     walletAddress := Js.or (body_walletAddress req) Null;
     storagePath := File.filename file;
     createdAt := now |}.

(** The answer to an accepted upload. *)
Definition created_response (archive : Archive) : response :=
  {| status := 201; json := UploadJson true archive |}.

(** What the filter callback comes to on a record, the state left out (the
    callback neither reads nor writes it). *)
Definition verdict (wallet : value) (a : Archive) : completion bool :=
  fst (wallet_matches wallet a tt).

(** The record passes the filter. *)
Definition kept (wallet : value) (a : Archive) : bool :=
  match verdict wallet a with
  | Normal keep => keep
  | Throw _ => false
  end.

(** The spec's reading of the wallet filter: the record's [walletAddress] is
    a string equal to [wallet] up to the case of letters. *)
Definition same_wallet (wallet : string) (a : Archive) : bool :=
  match walletAddress a with
  | Str mine => toLowerCase mine =? toLowerCase wallet
  | _ => false
  end.

(** The uuids the upload route draws while [r] is served: one, when an
    upload gets past the guards. *)
Definition draws (r : request) : list string :=
  match r with
  | POST_upload uuid _ req => if accepts req then [uuid] else []
  | _ => []
  end.

(** The records the upload route adds to the store while [r] is served. *)
Definition added (r : request) : list Archive :=
  match r with
  | POST_upload uuid now req =>
      match file req with
      | Some f => if accepts req then [created uuid now f req] else []
      | None => []
      end
  | _ => []
  end.

(** Requests served one after the other. *)
Fixpoint run `{Db.JSON Archive} (rs : list request) (s : state)
  : list response * state :=
  match rs with
  | [] => ([], s)
  | r :: rs' =>
      let (res, s') := serve r s in
      let (ress, s'') := run rs' s' in
      (res :: ress, s'')
  end.

(** [let archives = loadDb()] at start-up. *)
Definition boot `{Db.JSON Archive} (w : Db.world) : completion state :=
  match Db.loadDb w with
  | (Normal items, w') => Normal {| archives := items; world := w' |}
  | (Throw err, _) => Throw err
  end.

End Server.

(* ================================================================== *)
(** * Sample data *)
(* ================================================================== *)

(** Concrete inputs on which the model is run in the examples below. *)
Module Sample.

Import Js.

(** A stand-in for [JSON] that is enough to run the store: an array is
    printed as the list of its records' ids, and only the two texts ["[]"]
    and ["{}"] parse. *)
#[export] Instance json_ids : Db.JSON Archive := {|
  Db.JSON_parse raw :=
    if raw =? "[]" then Some (Db.JsonArray [])
    else if raw =? "{}" then Some Db.JsonOther
    else None;
  Db.JSON_stringify data :=
    ("[" ++ String.concat "," (map id data) ++ "]")%string
|}.

(** A machine on which [data/] does not exist yet. *)
Definition fresh_disk : Db.world :=
  {| Db.files := Db.NoDir; Db.faults := []; Db.console := [] |}.

(** The same machine, refusing the next system call. *)
Definition read_only_disk : Db.world :=
  {| Db.files := Db.NoDir; Db.faults := [true]; Db.console := [] |}.

Definition disk_with (text : string) : Db.world :=
  {| Db.files := Db.Dir (Some text); Db.faults := []; Db.console := [] |}.

Definition empty_store : Server.state :=
  {| Server.archives := []; Server.world := fresh_disk |}.

(** [note.txt], ten bytes, stored under a generated name. *)
Definition note_txt : File.t :=
  {| File.originalname := Some "note.txt";
     File.size := 10;
     File.mimetype := Some "text/plain";
     File.filename := "5f0c.txt" |}.

Definition note_upload (walletAddress : value) : Server.upload_request :=
  {| Server.file := Some note_txt;
     Server.body_hash := Str "abc123";
     Server.body_walletAddress := walletAddress |}.

Definition note_archive (uuid now : string) (walletAddress : value) : Archive :=
  {| id := uuid;
     name := "note.txt";
     size := 10;
     mimeType := "text/plain";
     hash := Str "abc123";
     walletAddress := walletAddress;
     storagePath := "5f0c.txt";
     createdAt := now |}.

End Sample.

(* ================================================================== *)
(** * [server.js]: the upload middleware and the whole application *)
(* ================================================================== *)

Module Multer.

Import Js.

(** The [filename] function of [multer.diskStorage]:
    [`${uuidv4()}${path.extname(file.originalname || "")}`].  [uuid] is what
    [uuidv4()] returns here, and [path_extname] stands for [path.extname]. *)
Definition filename (path_extname : string -> string) (uuid : string)
           (originalname : option string) : string :=
  uuid ++ path_extname (or_string originalname "").

(** A JavaScript number as the size limit can be: [NaN], a number whose
    value is the integer [n], or [Rounded], an integer beyond [2^53] in
    magnitude that [parseInt] rounded to a double and that is followed no
    further. *)
Inductive number : Type :=
| NaN
| Num (n : Z)
| Rounded.

(** [ToBoolean] on a number: [NaN] and zero are falsy. *)
Definition number_truthy (x : number) : bool :=
  match x with
  | NaN => false
  | Num n => negb (n =? 0)%Z
  | Rounded => true
  end.

(** [x || y] on numbers. *)
Definition number_or (x y : number) : number :=
  if number_truthy x then x else y.

(** [x * 1024]: a product by a power of two, exact on doubles. *)
Definition times_1024 (x : number) : number :=
  match x with
  | Num n => Num (n * 1024)
  | NaN => NaN
  | Rounded => Rounded
  end.

Definition is_digit (c : ascii) : bool :=
  let n := nat_of_ascii c in ((48 <=? n) && (n <=? 57))%nat.

(** The longest prefix made of decimal digits. *)
Fixpoint digits (s : string) : string :=
  match s with
  | EmptyString => EmptyString
  | String c r => if is_digit c then String c (digits r) else EmptyString
  end.

(** [parseInt(input, 10)], where [input] is a string or [undefined]: the
    text is trimmed at its start, a sign is read, then the longest run of
    decimal digits; with no digit the result is [NaN].  An integer up to
    [2^53] in magnitude is a double. *)
Definition parseInt_10 (input : option string) : number :=
  let text :=
    trimStart (match input with Some s => s | None => "undefined" end) in
  let negative :=
    match text with
    | String c _ => Ascii.eqb c "-"
    | EmptyString => false
    end in
  let unsigned :=
    match text with
    | String c r => if Ascii.eqb c "-" || Ascii.eqb c "+" then r else text
    | EmptyString => text
    end in
  if digits unsigned =? "" then NaN
  else
    match NilEmpty.uint_of_string (digits unsigned) with
    | None => NaN
    | Some d =>
        let n := Z.of_N (N.of_uint d) in
        if (n <=? 2 ^ 53)%Z then Num (if negative then - n else n)
        else Rounded
    end.

(** [limits.fileSize], from [process.env.MAX_FILE_SIZE_MB]:
    [(parseInt(process.env.MAX_FILE_SIZE_MB, 10) || 100) * 1024 * 1024]. *)
Definition fileSize (MAX_FILE_SIZE_MB : option string) : number :=
  times_1024
    (times_1024 (number_or (parseInt_10 MAX_FILE_SIZE_MB) (Num 100))).

(** The decimal numeral of a natural number. *)
Definition decimal (n : N) : string :=
  NilEmpty.string_of_uint (N.to_uint n).

End Multer.

Module App.

Import Js.
Local Open Scope js_scope.

(** A request as it crosses the application: [app.use(cors(...))] comes
    first, the routes after it, the error handler last.  A request the
    gateway stops never reaches a route. *)
Definition handle `{Db.JSON Archive} (CORS_ORIGINS origin : option string)
           (r : Server.request) (s : Server.state)
  : response * Server.state :=
  match Server.on_world (Cors.gateway CORS_ORIGINS origin) s with
  | (Normal None, s') => Server.serve r s'
  | (Normal (Some res), s') => (res, s')
  | (Throw _, s') => (Server.internal_server_error, s')
  end.

(** The backing file holds the serialised record sequence of the process. *)
Definition in_sync `{Db.JSON Archive} (s : Server.state) : Prop :=
  Db.db_text (Server.world s)
  = Some (Db.JSON_stringify (Server.archives s)).

End App.

Module Route.

Import Js.

(** What [upload.single("file")] comes to on a request to
    [POST /api/upload], before the handler runs: it hands the request on
    ([next()]) with [req.file] and [req.body] set, or it fails
    ([next(err)]), as on a file part under another field name or a file
    above [limits.fileSize]. *)
Inductive single : Type :=
| Passed (req : Server.upload_request)
| Failed (err : error).

(** The route [POST /api/upload] whole: the middleware, then the handler.
    An error of the middleware skips the handler and the fallback and
    reaches the global error handler. *)
Definition post_upload `{Db.JSON Archive} (uuid now : string) (m : single)
           (s : Server.state) : response * Server.state :=
  match m with
  | Passed req => Server.serve (Server.POST_upload uuid now req) s
  | Failed err =>
      match Server.on_world (Cors.error_handler err) s with
      | (Normal res, s') => (res, s')
      | (Throw _, s') => (Server.internal_server_error, s')
      end
  end.

End Route.

(* ================================================================== *)
(** * A store format for the examples *)
(* ================================================================== *)

(** A second stand-in for [JSON], which reads back what it prints: one row
    per record, closed by [;], the fields of a row separated by [|], the
    size in unary.  It is meant for records whose strings hold neither
    separator. *)
Module Rows.

Import Js.

Definition show_value (v : value) : string :=
  match v with
  | Undefined => "u"
  | Null => "n"
  | Str s => "s" ++ s
  | Arr items => "a" ++ String.concat "," items
  end.

Definition read_value (t : string) : option value :=
  match t with
  | EmptyString => None
  | String tag rest =>
      if Ascii.eqb tag "u" then Some Undefined
      else if Ascii.eqb tag "n" then Some Null
      else if Ascii.eqb tag "s" then Some (Str rest)
      else if Ascii.eqb tag "a" then
        Some (Arr (if rest =? "" then [] else split "," rest))
      else None
  end.

Fixpoint show_size (n : nat) : string :=
  match n with
  | O => EmptyString
  | S n' => String "#" (show_size n')
  end.

Definition show_row (a : Archive) : string :=
  String.concat "|"
    [ id a; name a; show_size (size a); mimeType a; show_value (hash a);
      show_value (walletAddress a); storagePath a; createdAt a ].

Definition read_row (t : string) : option Archive :=
  match split "|" t with
  | [i; n; z; m; h; w; p; c] =>
      match read_value h, read_value w with
      | Some h', Some w' =>
          Some {| id := i; name := n; size := String.length z; mimeType := m;
                  hash := h'; walletAddress := w'; storagePath := p;
                  createdAt := c |}
      | _, _ => None
      end
  | _ => None
  end.

Fixpoint read_rows (pieces : list string) : option (list Archive) :=
  match pieces with
  | [] => Some []
  | piece :: later =>
      match later with
      | [] => if piece =? "" then Some [] else None
      | _ =>
          match read_row piece, read_rows later with
          | Some a, Some l => Some (a :: l)
          | _, _ => None
          end
      end
  end.

#[export] Instance json_rows : Db.JSON Archive := {|
  Db.JSON_parse raw := option_map Db.JsonArray (read_rows (split ";" raw));
  Db.JSON_stringify data :=
    String.concat "" (map (fun a => (show_row a ++ ";")%string) data)
|}.

End Rows.

(* ================================================================== *)
(** * ASCII text *)
(* ================================================================== *)

(** On text of the ASCII range the string methods of [Js] are the methods
    of JavaScript: [toLowerCase] folds the letters [A] to [Z] and nothing
    else, [trim] strips the six ASCII blanks and nothing else.  Statements
    that compare wallets or origins as JavaScript does are made for such
    text. *)
Module Text.

(** Every character of [s] is below 128. *)
Definition is_ascii (s : string) : bool :=
  forallb (fun c => (nat_of_ascii c <? 128)%nat) (list_ascii_of_string s).

(** The [walletAddress] of the record is absent, or a string of ASCII
    characters (and no array). *)
Definition ascii_wallet (a : Archive) : bool :=
  match walletAddress a with
  | Js.Undefined => true
  | Js.Null => true
  | Js.Str mine => is_ascii mine
  | Js.Arr _ => false
  end.

End Text.

(* ================================================================== *)
(** * Facts about the JavaScript fragment *)
(* ================================================================== *)

Section js_facts.

Import Js.

Lemma truthy_Str (s : string) : truthy (Str s) = true <-> s <> "".
Proof.
  cbn. destruct (String.eqb_spec s ""); cbn; split; congruence.
Qed.

(** A value passes the test [!v || typeof v !== "string"] of the upload
    route exactly when it is a string that is not empty. *)
Lemma string_test (v : value) :
  negb (truthy v) || negb (typeof v =? "string") = false <->
  exists s, v = Str s /\ s <> "".
Proof.
  destruct v as [| | s | items]; cbn.
  - split; [discriminate | intros (s & E & _); discriminate].
  - split; [discriminate | intros (s & E & _); discriminate].
  - destruct (String.eqb_spec s ""); cbn.
    + split; [discriminate | intros (s' & E & N); congruence].
    + split; [eauto | reflexivity].
  - split; [discriminate | intros (s & E & _); discriminate].
Qed.

Lemma Set_spread_In (l seen : list string) (x : string) :
  In x (Set_spread seen l) <-> In x seen \/ In x l.
Proof.
  revert seen. induction l as [|y l IH]; intros seen; cbn.
  - tauto.
  - rewrite IH. destruct (existsb (String.eqb y) seen) eqn:E.
    + apply existsb_exists in E. destruct E as (z & Hz & Ez).
      apply String.eqb_eq in Ez. subst z.
      split; [tauto | intros [?|[?|?]]; subst; auto].
    + rewrite in_app_iff. cbn. tauto.
Qed.

Lemma Set_spread_NoDup (l seen : list string) :
  NoDup seen -> NoDup (Set_spread seen l).
Proof.
  revert seen. induction l as [|y l IH]; intros seen Hs; cbn; [assumption|].
  apply IH. destruct (existsb (String.eqb y) seen) eqn:E; [assumption|].
  apply NoDup_app; [assumption | repeat constructor; intros [] | ].
  intros z Hz [<-|[]].
  assert (existsb (String.eqb y) seen = true) as C; [|congruence].
  apply existsb_exists. exists y. split; [assumption | apply String.eqb_refl].
Qed.

End js_facts.

(* ================================================================== *)
(** * Facts about [db.js] *)
(* ================================================================== *)

(** Runs a handler of the model on a state given by its constructors, up to
    the calls into [JSON]. *)
Ltac js_eval := cbv -[Db.JSON_parse Db.JSON_stringify].

Section db_facts.

Import Js.
Context {element : Type} `{Db.JSON element}.

Lemma saveDb_returns (data : list element) (w : Db.world) :
  fst (Db.saveDb data w) = Normal tt.
Proof.
  destruct w as [[|file] [|[] [|[] later]] out]; reflexivity.
Qed.

Lemma saveDb_outcome (data : list element) (w : Db.world) :
  let w' := snd (Db.saveDb data w) in
  (Db.db_text w' = Some (Db.JSON_stringify data) /\ Db.console w' = Db.console w)
  \/
  (Db.db_text w' = Db.db_text w /\
   exists err,
     Db.console w' = Db.console w ++ [("Failed to save DB: " ++ message err)%string]).
Proof.
  destruct w as [[|file] [|[] [|[] later]] out]; js_eval;
    solve [ left; split; reflexivity
          | right; split; [reflexivity | eexists (SystemError _); reflexivity] ].
Qed.

Lemma loadDb_returns (w : Db.world) :
  exists items, fst (Db.loadDb w) = Normal items.
Proof.
  destruct w as [[|[raw|]] [|[] [|[] later]] out]; js_eval;
    try solve [eexists; reflexivity];
    destruct (Db.JSON_parse raw) as [[items|]|]; js_eval; eexists; reflexivity.
Qed.

Lemma loadDb_absent (w : Db.world) :
  Db.db_text w = None -> fst (Db.loadDb w) = Normal [].
Proof.
  destruct w as [[|[raw|]] [|[] [|[] later]] out]; js_eval;
    solve [reflexivity | discriminate].
Qed.

Lemma loadDb_creates (w : Db.world) :
  Db.db_text w = None -> Db.undisturbed w ->
  Db.db_text (snd (Db.loadDb w)) = Some (Db.JSON_stringify []).
Proof.
  unfold Db.undisturbed.
  destruct w as [[|[raw|]] faults out]; js_eval; intros E U; try discriminate.
  - destruct faults as [|f1 [|f2 later]]; js_eval; try reflexivity.
    + inversion U; subst. reflexivity.
    + inversion U as [|? ? E1 U']; subst. inversion U'; subst. reflexivity.
  - destruct faults as [|f1 later]; js_eval; try reflexivity.
    inversion U; subst. reflexivity.
Qed.

Lemma loadDb_unparsable (w : Db.world) (raw : string) :
  Db.db_text w = Some raw -> Db.JSON_parse raw = None ->
  fst (Db.loadDb w) = Normal [].
Proof.
  destruct w as [[|[raw'|]] [|[] later] out]; js_eval; intros E P;
    try discriminate; try reflexivity;
    injection E as ->; rewrite P; reflexivity.
Qed.

Lemma loadDb_not_array (w : Db.world) (raw : string) :
  Db.db_text w = Some raw -> Db.JSON_parse raw = Some Db.JsonOther ->
  fst (Db.loadDb w) = Normal [].
Proof.
  destruct w as [[|[raw'|]] [|[] later] out]; js_eval; intros E P;
    try discriminate; try reflexivity;
    injection E as ->; rewrite P; reflexivity.
Qed.

(** When the backing file is there, can be read and holds an array, [loadDb]
    returns the elements of the array and leaves the file as it is. *)
Theorem loadDb_array (w : Db.world) (raw : string) (items : list element) :
  Db.db_text w = Some raw -> Db.undisturbed w ->
  Db.JSON_parse raw = Some (Db.JsonArray items) ->
  Db.loadDb w = (Normal items, {| Db.files := Db.files w;
                                  Db.faults := tl (Db.faults w);
                                  Db.console := Db.console w |}).
Proof.
  unfold Db.undisturbed.
  destruct w as [[|[raw'|]] [|f later] out]; js_eval; intros E U P;
    try discriminate; injection E as ->.
  - rewrite P. reflexivity.
  - inversion U; subst. js_eval. rewrite P. reflexivity.
Qed.

(** C6.  Whatever the state of the backing file, [loadDb] returns a sequence
    and never throws.  When [archives.json] is absent it returns the empty
    sequence and, the operating system refusing nothing, leaves the file
    holding the serialised empty sequence.  When the text of the file does
    not parse, or parses to something that is no array, it returns the empty
    sequence. *)
Theorem loadDb_always_a_sequence (w : Db.world) :
  (exists items, fst (Db.loadDb w) = Normal items) /\
  (Db.db_text w = None ->
     fst (Db.loadDb w) = Normal [] /\
     (Db.undisturbed w ->
        Db.db_text (snd (Db.loadDb w)) = Some (Db.JSON_stringify []))) /\
  (forall raw,
     Db.db_text w = Some raw ->
     Db.JSON_parse raw = None \/ Db.JSON_parse raw = Some Db.JsonOther ->
     fst (Db.loadDb w) = Normal []).
Proof.
  split; [apply loadDb_returns | split].
  - intros Absent. split.
    + apply loadDb_absent, Absent.
    + intros Quiet. apply loadDb_creates; assumption.
  - intros raw Present [Bad | Other].
    + eapply loadDb_unparsable; eassumption.
    + eapply loadDb_not_array; eassumption.
Qed.

(** C7.  [saveDb] returns normally, with the same (void) result, whatever
    the record sequence and whatever becomes of the write: either the file
    now holds the serialised sequence and nothing was printed, or the file
    is as it was and the failure went to the console, and nowhere else. *)
Theorem saveDb_never_throws (data : list element) (w : Db.world) :
  fst (Db.saveDb data w) = Normal tt /\
  (forall w2, fst (Db.saveDb data w2) = fst (Db.saveDb data w)) /\
  ((Db.db_text (snd (Db.saveDb data w)) = Some (Db.JSON_stringify data) /\
    Db.console (snd (Db.saveDb data w)) = Db.console w)
   \/
   (Db.db_text (snd (Db.saveDb data w)) = Db.db_text w /\
    exists err,
      Db.console (snd (Db.saveDb data w)) =
      Db.console w ++ [("Failed to save DB: " ++ message err)%string])).
Proof.
  split; [apply saveDb_returns | split].
  - intros w2. now rewrite !saveDb_returns.
  - apply saveDb_outcome.
Qed.

End db_facts.

Section db_samples.

Import Sample.

(** [loadDb] run on three disks: no [data/] directory, a file that is no
    JSON, a file holding an object. *)
Lemma loadDb_on_sample_disks :
  (fst (Db.loadDb Sample.fresh_disk) = Js.Normal (@nil Archive) /\
   Db.db_text (snd (Db.loadDb (element := Archive) Sample.fresh_disk))
   = Some "[]") /\
  fst (Db.loadDb (Sample.disk_with "oops")) = Js.Normal (@nil Archive) /\
  fst (Db.loadDb (Sample.disk_with "{}")) = Js.Normal (@nil Archive).
Proof.
  split; [|split].
  - destruct (loadDb_always_a_sequence (H := Sample.json_ids) Sample.fresh_disk)
      as (_ & Absent & _).
    destruct (Absent eq_refl) as [Empty Created].
    split; [exact Empty | apply Created; constructor].
  - destruct (loadDb_always_a_sequence (H := Sample.json_ids)
                (Sample.disk_with "oops")) as (_ & _ & Bad).
    apply (Bad "oops"); [reflexivity | left; reflexivity].
  - destruct (loadDb_always_a_sequence (H := Sample.json_ids)
                (Sample.disk_with "{}")) as (_ & _ & Bad).
    apply (Bad "{}"); [reflexivity | right; reflexivity].
Defined.

(** [loadDb] on a file that holds the empty array. *)
Lemma loadDb_on_empty_array :
  Db.loadDb (Sample.disk_with "[]")
  = (Js.Normal (@nil Archive), Sample.disk_with "[]").
Proof.
  apply (loadDb_array (H := Sample.json_ids) (Sample.disk_with "[]") "[]" []).
  - reflexivity.
  - constructor.
  - reflexivity.
Defined.

(** [saveDb] on a disk that refuses the call and on one that does not: the
    caller gets the same result. *)
Lemma saveDb_on_sample_disks :
  fst (Db.saveDb [Sample.note_archive "u1" "t1" Js.Null] Sample.read_only_disk)
  = Js.Normal tt /\
  fst (Db.saveDb [Sample.note_archive "u1" "t1" Js.Null] Sample.fresh_disk)
  = fst (Db.saveDb [Sample.note_archive "u1" "t1" Js.Null]
           Sample.read_only_disk).
Proof.
  destruct (saveDb_never_throws (H := Sample.json_ids)
              [Sample.note_archive "u1" "t1" Js.Null] Sample.read_only_disk)
    as (Returns & Same & _).
  split; [exact Returns | apply Same].
Defined.

End db_samples.

(* ================================================================== *)
(** * Facts about the CORS gateway *)
(* ================================================================== *)

Section cors_facts.

Import Js.

Lemma defaultAllowedOrigins_NoDup : NoDup Cors.defaultAllowedOrigins.
Proof.
  unfold Cors.defaultAllowedOrigins.
  repeat (constructor; [cbn; intuition discriminate|]).
  constructor.
Qed.

Lemma extra_of_empty : Cors.extra "" = [].
Proof. reflexivity. Qed.

(** No piece kept by [filter(Boolean)] is empty. *)
Lemma extra_nonempty (env o : string) : In o (Cors.extra env) -> o <> "".
Proof.
  unfold Cors.extra. rewrite filter_In. intros [_ Keep] ->. discriminate.
Qed.

Lemma allowedOrigins_In (CORS_ORIGINS : option string) (o : string) :
  In o (Cors.allowedOrigins CORS_ORIGINS) <->
  In o Cors.defaultAllowedOrigins \/
  exists env, CORS_ORIGINS = Some env /\ In o (Cors.extra env).
Proof.
  destruct CORS_ORIGINS as [env|]; unfold Cors.allowedOrigins.
  - destruct (String.eqb_spec env "") as [->|Given]; cbn [negb].
    + split; [auto | intros [D | (env & E & X)]; [exact D|]].
      injection E as <-. rewrite extra_of_empty in X. destruct X.
    + rewrite Set_spread_In, in_app_iff. split.
      * intros [[] | [D | X]]; [left; exact D | right; eauto].
      * intros [D | (env' & E & X)]; [auto|].
        injection E as <-. auto.
  - split; [auto | intros [D | (env & E & _)]; [exact D | discriminate]].
Qed.

Lemma allowedOrigins_NoDup (CORS_ORIGINS : option string) :
  NoDup (Cors.allowedOrigins CORS_ORIGINS).
Proof.
  destruct CORS_ORIGINS as [env|]; unfold Cors.allowedOrigins;
    [destruct (negb (env =? ""))|]; try apply defaultAllowedOrigins_NoDup.
  apply Set_spread_NoDup. constructor.
Qed.

Lemma empty_origin_not_allowed (CORS_ORIGINS : option string) :
  ~ In "" (Cors.allowedOrigins CORS_ORIGINS).
Proof.
  rewrite allowedOrigins_In. intros [D | (env & _ & X)].
  - cbn in D. intuition discriminate.
  - now apply extra_nonempty in X.
Qed.

Lemma includes_In (allowed : list string) (o : string) :
  Cors.includes allowed (Some o) = true <-> In o allowed.
Proof.
  cbn. rewrite existsb_exists. split.
  - intros (x & Hx & E). apply String.eqb_eq in E. now subst.
  - intros Hx. exists o. split; [assumption | apply String.eqb_refl].
Qed.

(** The gateway decides by two tests of the callback alone. *)
Lemma gateway_open (CORS_ORIGINS origin : option string) (w : Db.world) :
  falsy_string origin = true \/
  Cors.includes (Cors.allowedOrigins CORS_ORIGINS) origin = true ->
  Cors.gateway CORS_ORIGINS origin w = (Normal None, w).
Proof.
  unfold Cors.gateway, Cors.cors, Cors.origin_callback.
  intros [F | I].
  - rewrite F. reflexivity.
  - destruct (falsy_string origin); [reflexivity|]. rewrite I. reflexivity.
Qed.

Lemma gateway_closed (CORS_ORIGINS origin : option string) (w : Db.world) :
  falsy_string origin = false ->
  Cors.includes (Cors.allowedOrigins CORS_ORIGINS) origin = false ->
  fst (Cors.gateway CORS_ORIGINS origin w) = Normal (Some Cors.blocked).
Proof.
  unfold Cors.gateway, Cors.cors, Cors.origin_callback.
  intros -> ->. reflexivity.
Qed.

(** C8, as the claim has it, fails on a request whose [Origin] header is
    present and empty: the empty origin is in no allow-list, and the request
    is let through all the same, because the callback tests [!origin]. *)
Lemma gateway_lets_empty_origin_through :
  Some "" <> @None string /\
  ~ In "" (Cors.allowedOrigins None) /\
  fst (Cors.gateway None (Some "") Sample.fresh_disk) = Normal None /\
  fst (Cors.gateway None (Some "") Sample.fresh_disk)
  <> Normal (Some Cors.blocked).
Proof.
  split; [discriminate | split; [apply empty_origin_not_allowed | split]].
  - reflexivity.
  - discriminate.
Qed.

(** C8, amended.  A request is let through when it has no [Origin] header,
    when the header is empty, or when its origin is in the allow-list; every
    other origin is answered 403 with the body [{error: "CORS blocked"}].
    The allow-list holds the default origins and the trimmed, non-empty
    pieces of [CORS_ORIGINS], each once. *)
Theorem gateway_decision (CORS_ORIGINS origin : option string) (w : Db.world) :
  (origin = None \/ origin = Some "" \/
   (exists o, origin = Some o /\ In o (Cors.allowedOrigins CORS_ORIGINS)) ->
   Cors.gateway CORS_ORIGINS origin w = (Normal None, w)) /\
  (forall o,
     origin = Some o -> o <> "" ->
     ~ In o (Cors.allowedOrigins CORS_ORIGINS) ->
     fst (Cors.gateway CORS_ORIGINS origin w) = Normal (Some Cors.blocked)) /\
  (forall o,
     In o (Cors.allowedOrigins CORS_ORIGINS) <->
     In o Cors.defaultAllowedOrigins \/
     exists env, CORS_ORIGINS = Some env /\ In o (Cors.extra env)) /\
  NoDup (Cors.allowedOrigins CORS_ORIGINS).
Proof.
  repeat split.
  - intros [-> | [-> | (o & -> & Allowed)]]; apply gateway_open.
    + left; reflexivity.
    + left; reflexivity.
    + right. now apply includes_In.
  - intros o -> Present Foreign. apply gateway_closed.
    + cbn. now apply String.eqb_neq.
    + destruct (Cors.includes _ _) eqn:I; [|reflexivity].
      apply includes_In in I. contradiction.
  - apply allowedOrigins_In.
  - apply allowedOrigins_In.
  - apply allowedOrigins_NoDup.
Qed.

(** The gateway on three requests of a deployment configured with one more
    origin: a listed origin, no origin, a foreign origin. *)
Lemma gateway_on_sample_requests :
  Cors.gateway (Some "https://a.com") (Some "https://a.com") Sample.fresh_disk
  = (Normal None, Sample.fresh_disk) /\
  Cors.gateway (Some "https://a.com") None Sample.fresh_disk
  = (Normal None, Sample.fresh_disk) /\
  fst (Cors.gateway (Some "https://a.com") (Some "http://evil.example")
         Sample.fresh_disk)
  = Normal (Some Cors.blocked).
Proof.
  split; [|split].
  - apply (gateway_decision (Some "https://a.com") (Some "https://a.com")).
    right; right. exists "https://a.com". split; [reflexivity|].
    vm_compute. do 5 right. left. reflexivity.
  - apply (gateway_decision (Some "https://a.com") None). left; reflexivity.
  - apply (gateway_decision (Some "https://a.com") (Some "http://evil.example")
             Sample.fresh_disk) with (o := "http://evil.example").
    + reflexivity.
    + discriminate.
    + vm_compute. intuition discriminate.
Defined.

End cors_facts.

(* ================================================================== *)
(** * Facts about the routes *)
(* ================================================================== *)

Section server_facts.

Import Js.
Import Server.
Context `{Db.JSON Archive}.

(** ** The upload route *)

Lemma accepts_spec (req : upload_request) :
  accepts req = true <->
  (exists f, file req = Some f) /\
  (exists h, body_hash req = Str h /\ h <> "").
Proof.
  unfold accepts. destruct (file req) as [f|].
  - destruct (body_hash req) as [| | h | items].
    + split; [discriminate | intros (_ & h & E & _); discriminate].
    + split; [discriminate | intros (_ & h & E & _); discriminate].
    + destruct (String.eqb_spec h ""); cbn.
      * split; [discriminate | intros (_ & h' & E & N); congruence].
      * split; [eauto 6 | reflexivity].
    + split; [discriminate | intros (_ & h & E & _); discriminate].
  - split; [discriminate | intros ((f & E) & _); discriminate].
Qed.

Lemma upload_accepted (uuid now : string) (req : upload_request)
      (f : File.t) (s : state) :
  file req = Some f -> accepts req = true ->
  upload uuid now req s =
  (Normal (created_response (created uuid now f req)),
   {| archives := created uuid now f req :: archives s;
      world := snd (Db.saveDb (created uuid now f req :: archives s)
                      (world s)) |}).
Proof.
  intros Ef Acc. apply accepts_spec in Acc.
  destruct Acc as (_ & h & Eh & Nh).
  assert (negb (truthy (body_hash req))
          || negb (typeof (body_hash req) =? "string") = false) as Test
    by (apply string_test; eauto).
  unfold upload, try_catch, bind. rewrite Ef, Test.
  unfold unshift, modify, get, on_world, ret; cbn [archives world].
  pose proof (saveDb_returns (created uuid now f req :: archives s) (world s))
    as Saved.
  unfold created in *.
  destruct (Db.saveDb _ (world s)) as [r w']. cbn in Saved. subst r.
  reflexivity.
Qed.

Lemma upload_rejected (uuid now : string) (req : upload_request) (s : state) :
  accepts req = false ->
  exists msg,
    upload uuid now req s =
    (Normal {| status := 400; json := ErrorJson msg |}, s).
Proof.
  intros Rej. unfold upload, try_catch, bind, ret.
  destruct (file req) as [f|] eqn:Ef; [|eexists; reflexivity].
  destruct (negb (truthy (body_hash req)) || _) eqn:Test;
    [eexists; reflexivity|].
  apply string_test in Test. destruct Test as (h & Eh & Nh).
  assert (accepts req = true) as Acc by (apply accepts_spec; eauto).
  congruence.
Qed.

(** ** The listing route *)

Lemma wallet_matches_verdict {S} (wallet : value) (a : Archive) (s : S) :
  wallet_matches wallet a s = (verdict wallet a, s).
Proof.
  unfold verdict, wallet_matches, bind, call_toLowerCase, Js.or.
  destruct (truthy (walletAddress a)); [destruct (walletAddress a)|];
    destruct wallet; reflexivity.
Qed.

Lemma filter_wallet_state {S} (wallet : value) (l : list Archive) (s : S) :
  snd (Js.filter (wallet_matches wallet) l s) = s.
Proof.
  induction l as [|a l IH]; [reflexivity|].
  cbn [Js.filter]. unfold bind at 1. rewrite wallet_matches_verdict.
  destruct (verdict wallet a) as [keep|e]; [|reflexivity].
  unfold bind at 1.
  destruct (Js.filter (wallet_matches wallet) l s) as [[rest|e] s'];
    cbn in IH; subst; reflexivity.
Qed.

Lemma filter_wallet_normal {S} (wallet : value) (l : list Archive) (s : S) :
  Forall (fun a => exists keep, verdict wallet a = Normal keep) l ->
  fst (Js.filter (wallet_matches wallet) l s)
  = Normal (List.filter (kept wallet) l).
Proof.
  induction 1 as [|a l (keep & E) _ IH]; [reflexivity|].
  cbn [Js.filter List.filter]. unfold bind at 1.
  rewrite wallet_matches_verdict. unfold kept at 1. rewrite E.
  unfold bind at 1.
  destruct (Js.filter (wallet_matches wallet) l s) as [[rest|e] s'];
    cbn in IH; [|discriminate].
  injection IH as ->. reflexivity.
Qed.

Lemma filter_wallet_inv {S} (wallet : value) (l items : list Archive) (s : S) :
  fst (Js.filter (wallet_matches wallet) l s) = Normal items ->
  Forall (fun a => exists keep, verdict wallet a = Normal keep) l.
Proof.
  revert items. induction l as [|a l IH]; intros items; [constructor|].
  cbn [Js.filter]. unfold bind at 1. rewrite wallet_matches_verdict.
  destruct (verdict wallet a) as [keep|e] eqn:E; [|discriminate].
  unfold bind at 1.
  destruct (Js.filter (wallet_matches wallet) l s) as [[rest|e] s'] eqn:F;
    [|discriminate].
  intros _. constructor; [eauto | apply (IH rest); reflexivity].
Qed.

Lemma list_files_all (wallet : value) (s : state) :
  truthy wallet = false ->
  list_files wallet s =
  (Normal {| status := 200; json := ItemsJson (archives s) |}, s).
Proof.
  intros F. unfold list_files, try_catch, bind, get. rewrite F. reflexivity.
Qed.

Lemma list_files_filtered (wallet : value) (s : state) :
  truthy wallet = true ->
  Forall (fun a => exists keep, verdict wallet a = Normal keep) (archives s) ->
  list_files wallet s =
  (Normal {| status := 200;
             json := ItemsJson (List.filter (kept wallet) (archives s)) |}, s).
Proof.
  intros T Typed. unfold list_files, try_catch, bind at 1, get. rewrite T.
  unfold bind.
  pose proof (filter_wallet_normal wallet (archives s) s Typed) as N.
  pose proof (filter_wallet_state wallet (archives s) s) as St.
  destruct (Js.filter (wallet_matches wallet) (archives s) s) as [r s'].
  cbn in N, St. subst. reflexivity.
Qed.

Lemma list_files_failed (wallet : value) (s : state) :
  truthy wallet = true ->
  ~ Forall (fun a => exists keep, verdict wallet a = Normal keep) (archives s) ->
  fst (list_files wallet s) = Normal internal_server_error.
Proof.
  intros T Poisoned. unfold list_files, try_catch, bind at 1, get. rewrite T.
  unfold bind.
  destruct (Js.filter (wallet_matches wallet) (archives s) s) as [[items|e] s']
    eqn:F.
  - exfalso. apply Poisoned. apply (filter_wallet_inv wallet _ items s).
    now rewrite F.
  - reflexivity.
Qed.

Lemma list_files_archives (wallet : value) (s : state) :
  archives (snd (list_files wallet s)) = archives s.
Proof.
  unfold list_files, try_catch, bind at 1, get.
  destruct (truthy wallet); [|reflexivity].
  unfold bind.
  pose proof (filter_wallet_state wallet (archives s) s) as St.
  destruct (Js.filter (wallet_matches wallet) (archives s) s) as [[items|e] s'];
    cbn in St; subst; reflexivity.
Qed.

Lemma list_files_returns (wallet : value) (s : state) :
  exists res, fst (list_files wallet s) = Normal res.
Proof.
  unfold list_files, try_catch, bind at 1, get.
  destruct (truthy wallet); [|eexists; reflexivity].
  unfold bind.
  destruct (Js.filter (wallet_matches wallet) (archives s) s) as [[items|e] s'];
    eexists; reflexivity.
Qed.

(** The callback on a record whose [walletAddress] is falsy: the record is
    compared as the empty string. *)
Lemma verdict_absent (w : string) (a : Archive) :
  w <> "" -> truthy (walletAddress a) = false ->
  verdict (Str w) a = Normal false.
Proof.
  intros Nw F. unfold verdict, wallet_matches, bind, Js.or. rewrite F.
  destruct w as [|c w]; [now destruct Nw | reflexivity].
Qed.

Lemma verdict_string (w mine : string) (a : Archive) :
  walletAddress a = Str mine ->
  verdict (Str w) a = Normal (toLowerCase mine =? toLowerCase w).
Proof.
  intros E. unfold verdict, wallet_matches, bind, Js.or. rewrite E. cbn.
  destruct (String.eqb_spec mine "") as [->|N]; reflexivity.
Qed.

Lemma verdict_array (wallet : value) (items : list string) (a : Archive) :
  walletAddress a = Arr items ->
  verdict wallet a = Throw (TypeError "toLowerCase is not a function").
Proof.
  intros E. unfold verdict, wallet_matches, bind, Js.or. rewrite E.
  reflexivity.
Qed.

(** On a record whose [walletAddress] is no array, the callback returns what
    the spec's reading of the filter says. *)
Lemma verdict_same_wallet (w : string) (a : Archive) :
  w <> "" -> (forall items, walletAddress a <> Arr items) ->
  verdict (Str w) a = Normal (same_wallet w a).
Proof.
  intros Nw Typed. unfold same_wallet.
  destruct (walletAddress a) as [| | mine | items] eqn:E.
  - apply verdict_absent; [assumption | now rewrite E].
  - apply verdict_absent; [assumption | now rewrite E].
  - now apply verdict_string.
  - now destruct (Typed items).
Qed.

Lemma kept_not_falsy (wallet : value) (a : Archive) :
  truthy wallet = true -> kept wallet a = true ->
  truthy (walletAddress a) = true.
Proof.
  intros T K. destruct (truthy (walletAddress a)) eqn:F; [reflexivity|].
  unfold kept in K. destruct wallet as [| | w | items]; try discriminate.
  - rewrite verdict_absent in K; [discriminate | | assumption].
    now apply truthy_Str.
  - unfold verdict, wallet_matches, bind, Js.or in K. rewrite F in K.
    discriminate.
Qed.

(** ** The route by id *)

Lemma get_file_found (id0 : string) (a : Archive) (s : state) :
  find (fun a => id a =? id0) (archives s) = Some a ->
  get_file id0 s =
  (Normal {| status := 200; json := ArchiveJson a |}, s).
Proof.
  intros F. unfold get_file, try_catch, bind, get. rewrite F. reflexivity.
Qed.

Lemma get_file_missing (id0 : string) (s : state) :
  find (fun a => id a =? id0) (archives s) = None ->
  get_file id0 s =
  (Normal {| status := 404; json := ErrorJson "Archive not found" |}, s).
Proof.
  intros F. unfold get_file, try_catch, bind, get. rewrite F. reflexivity.
Qed.

Lemma find_first (id0 : string) (before after : list Archive) (a : Archive) :
  id a = id0 -> (forall b, In b before -> id b <> id0) ->
  find (fun a => id a =? id0) (before ++ a :: after) = Some a.
Proof.
  intros E Others. induction before as [|b before IH]; cbn.
  - subst. now rewrite String.eqb_refl.
  - destruct (String.eqb_spec (id b) id0) as [Eb|_].
    + destruct (Others b); [left; reflexivity | assumption].
    + apply IH. intros c Hc. apply Others. now right.
Qed.

(** ** Requests one after the other *)

Lemma serve_archives (r : request) (s : state) :
  archives (snd (serve r s)) = added r ++ archives s.
Proof.
  unfold serve, added. destruct r as [uuid now req | wallet | id0]; cbn [route].
  - destruct (accepts req) eqn:Acc.
    + destruct (proj1 (accepts_spec req) Acc) as ((f & Ef) & _).
      rewrite Ef, (upload_accepted uuid now req f s Ef Acc). reflexivity.
    + destruct (upload_rejected uuid now req s Acc) as (msg & ->).
      destruct (file req); reflexivity.
  - pose proof (list_files_archives wallet s) as Same.
    destruct (list_files_returns wallet s) as (res & R).
    destruct (list_files wallet s) as [c s']. cbn in R, Same. subst c.
    exact Same.
  - destruct (find (fun a => id a =? id0) (archives s)) as [a|] eqn:F.
    + now rewrite (get_file_found id0 a s F).
    + now rewrite (get_file_missing id0 s F).
Qed.

Lemma added_ids (r : request) : map id (added r) = draws r.
Proof.
  destruct r as [uuid now req | wallet | id0]; try reflexivity.
  unfold added, draws, accepts.
  destruct (file req); [|reflexivity].
  destruct (body_hash req); try reflexivity.
  destruct (negb _); reflexivity.
Qed.

Lemma list_files_items (wallet : value) (s : state) (items : list Archive) :
  truthy wallet = true ->
  fst (list_files wallet s) = Normal {| status := 200; json := ItemsJson items |} ->
  items = List.filter (kept wallet) (archives s).
Proof.
  intros T R. unfold list_files, try_catch, bind at 1, get in R.
  rewrite T in R. unfold bind in R.
  destruct (Js.filter (wallet_matches wallet) (archives s) s) as [[r|e] s']
    eqn:F; cbn in R; [|discriminate].
  injection R as <-.
  assert (Forall (fun a => exists keep, verdict wallet a = Normal keep)
                 (archives s)) as Typed
    by (apply (filter_wallet_inv wallet _ r s); now rewrite F).
  pose proof (filter_wallet_normal wallet (archives s) s Typed) as N.
  rewrite F in N. cbn in N. congruence.
Qed.

Lemma serve_accepted (uuid now : string) (req : upload_request)
      (f : File.t) (s : state) :
  file req = Some f -> accepts req = true ->
  serve (POST_upload uuid now req) s =
  (created_response (created uuid now f req),
   {| archives := created uuid now f req :: archives s;
      world := snd (Db.saveDb (created uuid now f req :: archives s)
                      (world s)) |}).
Proof.
  intros Ef Acc. unfold serve. cbn [route].
  now rewrite (upload_accepted uuid now req f s Ef Acc).
Qed.

(** ** The claims about the routes *)

(** C1.  An upload request that carries a file and a [hash] that is a
    non-empty string is answered 201 with [{success: true, archive}], and
    the record is put at the head of the store.  Its [name] is the client's
    file name, or ["encrypted-file"] when there is none; its [size] the
    stored size; its [mimeType] the declared type, or
    ["application/octet-stream"] when there is none; its [hash] the field as
    sent; its [walletAddress] [null] when the field is absent; its
    [storagePath] the generated file name. *)
Theorem upload_creates_archive (uuid now : string) (req : upload_request)
        (f : File.t) (h : string) (s : state) :
  file req = Some f -> body_hash req = Str h -> h <> "" ->
  exists a s',
    upload uuid now req s =
    (Normal {| status := 201; json := UploadJson true a |}, s') /\
    archives s' = a :: archives s /\
    (forall n, File.originalname f = Some n -> n <> "" -> name a = n) /\
    (File.originalname f = None \/ File.originalname f = Some "" ->
     name a = "encrypted-file") /\
    size a = File.size f /\
    (forall m, File.mimetype f = Some m -> m <> "" -> mimeType a = m) /\
    (File.mimetype f = None \/ File.mimetype f = Some "" ->
     mimeType a = "application/octet-stream") /\
    hash a = Str h /\
    (body_walletAddress req = Undefined -> walletAddress a = Null) /\
    storagePath a = File.filename f.
Proof.
  intros Ef Eh Nh.
  assert (accepts req = true) as Acc by (apply accepts_spec; eauto).
  exists (created uuid now f req). eexists.
  split; [apply (upload_accepted uuid now req f s Ef Acc) | ].
  split; [reflexivity | ]. cbn [created name size mimeType hash walletAddress
                                 storagePath].
  repeat split.
  - intros n En Nn. rewrite En. cbn.
    now destruct (String.eqb_spec n "").
  - intros [-> | ->]; reflexivity.
  - intros m Em Nm. rewrite Em. cbn.
    now destruct (String.eqb_spec m "").
  - intros [-> | ->]; reflexivity.
  - exact Eh.
  - intros ->. reflexivity.
Qed.

(** C2.  After [N] uploads that all succeed, served from an empty store,
    the listing without a filter returns the [N] records created, the last
    created first. *)
Theorem listing_after_uploads (rs : list request) (s : state) :
  archives s = [] ->
  Forall (fun r => exists uuid now req,
                     r = POST_upload uuid now req /\ accepts req = true) rs ->
  exists cs,
    fst (run rs s) = map created_response cs /\
    length cs = length rs /\
    list_files Undefined (snd (run rs s)) =
    (Normal {| status := 200; json := ItemsJson (rev cs) |}, snd (run rs s)).
Proof.
  intros Empty Ups.
  assert (exists cs,
            fst (run rs s) = map created_response cs /\
            length cs = length rs /\
            archives (snd (run rs s)) = rev cs ++ archives s) as (cs & R & L & A).
  { clear Empty. revert s.
    induction Ups as [|r rs (uuid & now & req & -> & Acc) _ IH]; intros s.
    - exists []. repeat split.
    - destruct (proj1 (accepts_spec req) Acc) as ((f & Ef) & _).
      cbn [run]. rewrite (serve_accepted uuid now req f s Ef Acc).
      match goal with |- context [run rs ?s1] =>
        destruct (IH s1) as (cs & R & L & A); destruct (run rs s1) as [ress s2]
      end.
      cbn [fst snd] in *. exists (created uuid now f req :: cs).
      split; [cbn; now rewrite R | split; [cbn; now rewrite L|]].
      rewrite A. cbn [archives rev]. now rewrite <- app_assoc. }
  exists cs. split; [exact R | split; [exact L|]].
  rewrite list_files_all by reflexivity.
  now rewrite A, Empty, app_nil_r.
Qed.

(** C3.  The listing does not return the matching subset on every store the
    service can hold.  The upload route stores a [walletAddress] that is an
    array as it came, and once such a record is in the store every filtered
    listing is answered 500. *)
Theorem list_files_breaks_on_array_wallet (wallet : value) (s : state) :
  truthy wallet = true ->
  (exists a items, In a (archives s) /\ walletAddress a = Arr items) ->
  fst (list_files wallet s) = Normal internal_server_error.
Proof.
  intros T (a & items & Ha & Ea). apply list_files_failed; [assumption|].
  rewrite Forall_forall. intros Typed.
  destruct (Typed a Ha) as (keep & E).
  rewrite (verdict_array wallet items a Ea) in E. discriminate.
Qed.

(** The wallet filter of the model on a store in which no [walletAddress]
    is an array, letters folded as [Js.toLowerCase] folds them. *)
Lemma list_files_same_wallet (w : string) (s : state) :
  w <> "" ->
  Forall (fun a => forall items, walletAddress a <> Arr items) (archives s) ->
  list_files (Str w) s =
  (Normal {| status := 200;
             json := ItemsJson (List.filter (same_wallet w) (archives s)) |},
   s) /\
  (forall a, In a (List.filter (same_wallet w) (archives s)) ->
             exists mine, walletAddress a = Str mine /\ mine <> "").
Proof.
  intros Nw Typed. split.
  - rewrite list_files_filtered.
    + do 4 f_equal. apply filter_ext_in. intros a Ha.
      rewrite Forall_forall in Typed. unfold kept.
      now rewrite (verdict_same_wallet w a Nw (Typed a Ha)).
    + now apply truthy_Str.
    + rewrite Forall_forall in *. intros a Ha.
      exists (same_wallet w a). apply verdict_same_wallet; auto.
  - intros a Ha. apply filter_In in Ha. destruct Ha as [_ Same].
    unfold same_wallet in Same.
    destruct (walletAddress a) as [| | mine | items]; try discriminate.
    exists mine. split; [reflexivity|]. intros ->.
    destruct w; [now destruct Nw | discriminate].
Qed.

Lemma ascii_wallet_typed (l : list Archive) :
  Forall (fun a => Text.ascii_wallet a = true) l ->
  Forall (fun a => forall items, walletAddress a <> Arr items) l.
Proof.
  apply Forall_impl. intros a Ascii items E.
  unfold Text.ascii_wallet in Ascii. rewrite E in Ascii. discriminate.
Qed.

(** The wallet filter on ASCII text.  On a store in which every
    [walletAddress] is absent or an ASCII string, the listing filtered by a
    non-empty ASCII wallet returns the records whose [walletAddress] is a
    string equal to the parameter up to the case of letters, in the order of
    the store, and none of them has a [walletAddress] that is absent or
    empty. *)
Theorem list_files_filters_ascii_store (w : string) (s : state) :
  w <> "" -> Text.is_ascii w = true ->
  Forall (fun a => Text.ascii_wallet a = true) (archives s) ->
  list_files (Str w) s =
  (Normal {| status := 200;
             json := ItemsJson (List.filter (same_wallet w) (archives s)) |},
   s) /\
  (forall a, In a (List.filter (same_wallet w) (archives s)) ->
             exists mine, walletAddress a = Str mine /\ mine <> "").
Proof.
  intros Nw _ Ascii.
  exact (list_files_same_wallet w s Nw (ascii_wallet_typed _ Ascii)).
Qed.

(** C4.  [GET /api/files/:id] returns the first record of the store whose
    [id] is the one asked for (with ids pairwise distinct, the only one), and
    answers 404 with an error when no record has that [id]; either way the
    state is left as it was. *)
Theorem get_file_by_id (id0 : string) (s : state) :
  (forall before a after,
     archives s = before ++ a :: after ->
     id a = id0 -> (forall b, In b before -> id b <> id0) ->
     get_file id0 s =
     (Normal {| status := 200; json := ArchiveJson a |}, s)) /\
  ((exists a, In a (archives s) /\ id a = id0) ->
   exists a, In a (archives s) /\ id a = id0 /\
     get_file id0 s =
     (Normal {| status := 200; json := ArchiveJson a |}, s)) /\
  ((forall a, In a (archives s) -> id a <> id0) ->
   get_file id0 s =
   (Normal {| status := 404; json := ErrorJson "Archive not found" |}, s)).
Proof.
  split; [|split].
  - intros before a after Split Ea Others. apply get_file_found.
    rewrite Split. now apply find_first.
  - intros (a & Ha & Ea).
    destruct (find (fun a => id a =? id0) (archives s)) as [a'|] eqn:F.
    + destruct (find_some _ _ F) as [Ha' Ea'].
      apply String.eqb_eq in Ea'.
      exists a'. repeat split; try assumption. now apply get_file_found.
    + pose proof (find_none _ _ F a Ha) as N. cbn in N.
      apply String.eqb_neq in N. contradiction.
  - intros None. apply get_file_missing.
    destruct (find (fun a => id a =? id0) (archives s)) as [a|] eqn:F;
      [|reflexivity].
    destruct (find_some _ _ F) as [Ha Ea]. apply String.eqb_eq in Ea.
    now destruct (None a Ha).
Qed.

(** C5.  An upload request without a file, or whose [hash] is missing or is
    anything but a non-empty string, is answered 400 with an error, and the
    state, the record sequence in it, is exactly as before. *)
Theorem upload_rejects_bad_request (uuid now : string) (req : upload_request)
        (s : state) :
  file req = None \/ ~ (exists h, body_hash req = Str h /\ h <> "") ->
  exists msg,
    upload uuid now req s =
    (Normal {| status := 400; json := ErrorJson msg |}, s) /\
    archives (snd (upload uuid now req s)) = archives s /\
    length (archives (snd (upload uuid now req s))) = length (archives s).
Proof.
  intros Bad.
  assert (accepts req = false) as Rej.
  { destruct (accepts req) eqn:Acc; [|reflexivity].
    apply accepts_spec in Acc. destruct Acc as ((f & Ef) & Hash).
    destruct Bad as [NoFile | NoHash]; [congruence | contradiction]. }
  destruct (upload_rejected uuid now req s Rej) as (msg & U).
  exists msg. rewrite U. repeat split.
Qed.

(** C10.  An accepted upload whose [walletAddress] field is falsy (sent
    empty, for one) creates a record whose [walletAddress] is [null]; the
    route does exactly what it does when the field is absent; and no listing
    with a filter returns the record. *)
Theorem falsy_wallet_stored_as_null (uuid now : string) (req : upload_request)
        (f : File.t) (h : string) (s : state) :
  file req = Some f -> body_hash req = Str h -> h <> "" ->
  truthy (body_walletAddress req) = false ->
  exists a,
    fst (upload uuid now req s) = Normal (created_response a) /\
    walletAddress a = Null /\
    upload uuid now req s =
    upload uuid now {| file := file req;
                       body_hash := body_hash req;
                       body_walletAddress := Undefined |} s /\
    (forall wallet t items,
       truthy wallet = true ->
       fst (list_files wallet t)
       = Normal {| status := 200; json := ItemsJson items |} ->
       ~ In a items).
Proof.
  intros Ef Eh Nh Falsy.
  assert (accepts req = true) as Acc by (apply accepts_spec; eauto).
  set (req0 := {| file := file req; body_hash := body_hash req;
                  body_walletAddress := Undefined |}).
  assert (accepts req0 = true) as Acc0 by exact Acc.
  assert (created uuid now f req0 = created uuid now f req) as Same.
  { unfold created, Js.or. cbn [body_walletAddress body_hash req0 truthy].
    now rewrite Falsy. }
  exists (created uuid now f req). repeat split.
  - now rewrite (upload_accepted uuid now req f s Ef Acc).
  - cbn. unfold Js.or. now rewrite Falsy.
  - rewrite (upload_accepted uuid now req f s Ef Acc).
    rewrite (upload_accepted uuid now req0 f s Ef Acc0).
    now rewrite Same.
  - intros wallet t items T R Ha.
    rewrite (list_files_items wallet t items T R) in Ha.
    apply filter_In in Ha. destruct Ha as [_ K].
    apply (kept_not_falsy wallet _ T) in K.
    cbn in K. unfold Js.or in K. rewrite Falsy in K. discriminate.
Qed.

End server_facts.

(* ================================================================== *)
(** * The routes on the sample data *)
(* ================================================================== *)

Section server_samples.

Import Js.
Import Server.
Import Sample.

(** The scenario of the specification: [note.txt], ten bytes, uploaded with
    [hash = "abc123"] and no wallet. *)
Lemma upload_note_txt :
  exists a s',
    upload "u1" "2025-01-01T00:00:00.000Z" (note_upload Undefined) empty_store
    = (Normal {| status := 201; json := UploadJson true a |}, s') /\
    archives s' = [a] /\
    name a = "note.txt" /\ size a = 10 /\ mimeType a = "text/plain" /\
    hash a = Str "abc123" /\ walletAddress a = Null /\
    storagePath a = "5f0c.txt".
Proof.
  destruct (upload_creates_archive "u1" "2025-01-01T00:00:00.000Z"
              (note_upload Undefined) note_txt "abc123" empty_store
              eq_refl eq_refl)
    as (a & s' & U & Head & Nm & _ & Sz & Mt & _ & Hh & W & Sp);
    [discriminate|].
  exists a, s'. repeat split; try assumption.
  - apply (Nm "note.txt"); [reflexivity | discriminate].
  - apply (Mt "text/plain"); [reflexivity | discriminate].
  - apply W. reflexivity.
Defined.

Definition two_uploads : list request :=
  [ POST_upload "u1" "t1" (note_upload Undefined);
    POST_upload "u2" "t2" (note_upload (Str "0xAbC")) ].

(** Two uploads, then the listing: two records, the second upload first. *)
Lemma listing_after_two_uploads :
  exists cs,
    fst (run two_uploads empty_store) = map created_response cs /\
    length cs = 2 /\
    list_files Undefined (snd (run two_uploads empty_store)) =
    (Normal {| status := 200; json := ItemsJson (rev cs) |},
     snd (run two_uploads empty_store)).
Proof.
  apply (listing_after_uploads two_uploads empty_store eq_refl).
  repeat constructor.
  - exists "u1", "t1", (note_upload Undefined). split; reflexivity.
  - exists "u2", "t2", (note_upload (Str "0xAbC")). split; reflexivity.
Defined.

(** A form that carries [walletAddress] twice reaches the route with the
    field as an array. *)
Definition twice_wallet : upload_request :=
  note_upload (Arr ["0xabc"; "0xdef"]).

(** The upload is accepted, and the next filtered listing is answered 500. *)
Lemma listing_after_array_wallet :
  fst (serve (POST_upload "u1" "t1" twice_wallet) empty_store)
  = created_response (note_archive "u1" "t1" (Arr ["0xabc"; "0xdef"])) /\
  fst (list_files (Str "0xabc")
         (snd (serve (POST_upload "u1" "t1" twice_wallet) empty_store)))
  = Normal internal_server_error.
Proof.
  split; [reflexivity|].
  apply (list_files_breaks_on_array_wallet (Str "0xabc")); [reflexivity|].
  exists (note_archive "u1" "t1" (Arr ["0xabc"; "0xdef"])),
         ["0xabc"; "0xdef"].
  split; [left; reflexivity | reflexivity].
Defined.

Definition two_wallets : state :=
  {| archives := [ note_archive "u2" "t2" (Str "0xAbC");
                   note_archive "u1" "t1" Null ];
     world := fresh_disk |}.

(** The filter on a store of two records, one without a wallet. *)
Lemma listing_by_wallet :
  list_files (Str "0XABC") two_wallets =
  (Normal {| status := 200;
             json := ItemsJson [note_archive "u2" "t2" (Str "0xAbC")] |},
   two_wallets).
Proof.
  apply (list_files_filters_ascii_store "0XABC" two_wallets).
  - discriminate.
  - reflexivity.
  - repeat constructor.
Defined.

(** A known id and an unknown id. *)
Lemma get_file_on_two_wallets :
  get_file "u1" two_wallets =
  (Normal {| status := 200; json := ArchiveJson (note_archive "u1" "t1" Null) |},
   two_wallets) /\
  get_file "u9" two_wallets =
  (Normal {| status := 404; json := ErrorJson "Archive not found" |},
   two_wallets).
Proof.
  split.
  - apply (proj1 (get_file_by_id "u1" two_wallets)
             [note_archive "u2" "t2" (Str "0xAbC")]
             (note_archive "u1" "t1" Null) []); [reflexivity | reflexivity|].
    intros b [<- | []]. discriminate.
  - apply (proj2 (proj2 (get_file_by_id "u9" two_wallets))).
    intros a [<- | [<- | []]]; discriminate.
Defined.

(** An upload without [hash], and one whose [hash] came as an array. *)
Lemma upload_without_hash :
  (exists msg,
     upload "u3" "t3" {| file := Some note_txt;
                         body_hash := Undefined;
                         body_walletAddress := Undefined |} two_wallets
     = (Normal {| status := 400; json := ErrorJson msg |}, two_wallets)) /\
  (exists msg,
     upload "u3" "t3" {| file := Some note_txt;
                         body_hash := Arr ["abc"; "def"];
                         body_walletAddress := Undefined |} two_wallets
     = (Normal {| status := 400; json := ErrorJson msg |}, two_wallets)).
Proof.
  split.
  - destruct (upload_rejects_bad_request "u3" "t3"
                {| file := Some note_txt;
                   body_hash := Undefined;
                   body_walletAddress := Undefined |} two_wallets)
      as (msg & U & _).
    + right. intros (h & E & _). discriminate.
    + exists msg. exact U.
  - destruct (upload_rejects_bad_request "u3" "t3"
                {| file := Some note_txt;
                   body_hash := Arr ["abc"; "def"];
                   body_walletAddress := Undefined |} two_wallets)
      as (msg & U & _).
    + right. intros (h & E & _). discriminate.
    + exists msg. exact U.
Defined.

(** An upload whose [walletAddress] was sent empty. *)
Lemma upload_with_empty_wallet :
  exists a,
    fst (upload "u1" "t1" (note_upload (Str "")) empty_store)
    = Normal (created_response a) /\
    walletAddress a = Null /\
    upload "u1" "t1" (note_upload (Str "")) empty_store
    = upload "u1" "t1" (note_upload Undefined) empty_store.
Proof.
  destruct (falsy_wallet_stored_as_null "u1" "t1" (note_upload (Str ""))
              note_txt "abc123" empty_store eq_refl eq_refl)
    as (a & U & W & Same & _); [discriminate | reflexivity |].
  exists a. repeat split; assumption.
Defined.

End server_samples.

(* ================================================================== *)
(** * More about [db.js]: what a save and a load leave on the disk *)
(* ================================================================== *)

Section db_more.

Import Js.
Context {element : Type} `{Db.JSON element}.

Lemma undisturbed_cons (refused : bool) (later : list bool)
      (t : Db.tree) (out : list string) :
  Db.undisturbed {| Db.files := t; Db.faults := refused :: later;
                    Db.console := out |} ->
  refused = false /\
  Db.undisturbed {| Db.files := t; Db.faults := later; Db.console := out |}.
Proof. intros U. inversion U; subst. split; [reflexivity | assumption]. Qed.

(** A save the machine does not disturb. *)
Lemma saveDb_quiet (data : list element) (w : Db.world) :
  Db.undisturbed w ->
  Db.db_text (snd (Db.saveDb data w)) = Some (Db.JSON_stringify data) /\
  Db.console (snd (Db.saveDb data w)) = Db.console w /\
  Db.undisturbed (snd (Db.saveDb data w)).
Proof.
  destruct w as [[|file] faults out]; intros U.
  - destruct faults as [|f1 [|f2 later]].
    + js_eval. repeat split. constructor.
    + apply undisturbed_cons in U. destruct U as [-> U].
      js_eval. repeat split. constructor.
    + apply undisturbed_cons in U. destruct U as [-> U].
      apply undisturbed_cons in U. destruct U as [-> U].
      js_eval. repeat split. exact U.
  - destruct faults as [|f1 later].
    + js_eval. repeat split. constructor.
    + apply undisturbed_cons in U. destruct U as [-> U].
      js_eval. repeat split. exact U.
Qed.

(** A load of a file that is there, the machine not disturbing it. *)
Lemma loadDb_present (w : Db.world) (raw : string) :
  Db.db_text w = Some raw -> Db.undisturbed w ->
  fst (Db.loadDb w) =
  Normal (match Db.JSON_parse raw with
          | Some (Db.JsonArray items) => items
          | _ => []
          end) /\
  Db.undisturbed (snd (Db.loadDb w)).
Proof.
  destruct w as [[|[raw'|]] faults out]; cbn [Db.db_text Db.files];
    intros E U; try discriminate. injection E as ->.
  destruct faults as [|f1 later].
  - js_eval. destruct (Db.JSON_parse raw) as [[items|]|];
      (split; [reflexivity | constructor]).
  - apply undisturbed_cons in U. destruct U as [-> U].
    js_eval. destruct (Db.JSON_parse raw) as [[items|]|];
      (split; [reflexivity | exact U]).
Qed.

(** [saveDb] rewrites the whole file.  On a machine that refuses nothing,
    whatever was there before (no directory, no file, another text), the file
    holds the serialised sequence after the call and nothing was printed;
    a second save replaces the text of the first. *)
Theorem saveDb_rewrites_file (first second : list element) (w : Db.world) :
  Db.undisturbed w ->
  Db.db_text (snd (Db.saveDb first w)) = Some (Db.JSON_stringify first) /\
  Db.console (snd (Db.saveDb first w)) = Db.console w /\
  Db.db_text (snd (Db.saveDb second (snd (Db.saveDb first w))))
  = Some (Db.JSON_stringify second).
Proof.
  intros U. destruct (saveDb_quiet first w U) as (Text & Out & U').
  split; [exact Text | split; [exact Out|]].
  apply saveDb_quiet, U'.
Qed.

Lemma loadDb_text_kept (w : Db.world) (raw : string) :
  Db.db_text w = Some raw ->
  Db.db_text (snd (Db.loadDb w)) = Some raw.
Proof.
  destruct w as [[|[raw'|]] [|[] later] out]; cbn [Db.db_text Db.files];
    intros E; try discriminate; injection E as ->; js_eval;
    try reflexivity;
    destruct (Db.JSON_parse raw) as [[items|]|]; reflexivity.
Qed.

(** [loadDb] never writes over a file that is there: whatever the text,
    parsable or not, and whatever the machine refuses, the text is the same
    after the call, and the call returns normally. *)
Theorem loadDb_keeps_file (w : Db.world) (raw : string) :
  Db.db_text w = Some raw ->
  Db.db_text (snd (Db.loadDb w)) = Some raw /\
  exists items, fst (Db.loadDb w) = Normal items.
Proof.
  intros Text. split; [now apply loadDb_text_kept | apply loadDb_returns].
Qed.

(** A sequence that [JSON] reads back as it printed it comes back from the
    disk: on a machine that refuses nothing, [loadDb] after [saveDb data]
    returns [data]. *)
Theorem saveDb_then_loadDb (data : list element) (w : Db.world) :
  Db.undisturbed w ->
  Db.JSON_parse (Db.JSON_stringify data) = Some (Db.JsonArray data) ->
  fst (Db.loadDb (snd (Db.saveDb data w))) = Normal data.
Proof.
  intros U Back. destruct (saveDb_quiet data w U) as (Text & _ & U').
  destruct (loadDb_present _ _ Text U') as [Read _].
  now rewrite Read, Back.
Qed.

(** The first load on a machine without the file creates it, and what the
    next load returns is what [JSON] reads in the text of the empty array:
    with a [JSON] that reads [[]] back as the empty array, loading twice
    gives the empty sequence twice. *)
Theorem loadDb_twice_on_fresh_disk (w : Db.world) :
  Db.db_text w = None -> Db.undisturbed w ->
  Db.JSON_parse (Db.JSON_stringify []) = Some (Db.JsonArray []) ->
  fst (Db.loadDb w) = Normal [] /\
  fst (Db.loadDb (snd (Db.loadDb w))) = Normal [].
Proof.
  intros Absent U Back. split; [now apply loadDb_absent|].
  assert (Db.undisturbed (snd (Db.loadDb w))) as U'.
  { clear Back. destruct w as [[|[raw|]] faults out];
      cbn [Db.db_text Db.files] in Absent; try discriminate.
    - destruct faults as [|f1 [|f2 later]].
      + js_eval. constructor.
      + apply undisturbed_cons in U. destruct U as [-> U]. js_eval. constructor.
      + apply undisturbed_cons in U. destruct U as [-> U].
        apply undisturbed_cons in U. destruct U as [-> U]. js_eval. exact U.
    - destruct faults as [|f1 later].
      + js_eval. constructor.
      + apply undisturbed_cons in U. destruct U as [-> U]. js_eval. exact U. }
  destruct (loadDb_present _ _ (loadDb_creates w Absent U) U') as [Read _].
  now rewrite Read, Back.
Qed.

End db_more.

Section db_more_samples.

Import Js.
Import Rows.

Definition two_records : list Archive :=
  [ Sample.note_archive "u2" "t2" (Str "0xAbC");
    Sample.note_archive "u1" "t1" Null ].

(** Two saves on a machine without [data/]: the file holds the second. *)
Lemma saveDb_twice_on_fresh_disk :
  Db.db_text (snd (Db.saveDb two_records
                     (snd (Db.saveDb (@nil Archive) Sample.fresh_disk))))
  = Some (Db.JSON_stringify two_records).
Proof.
  apply (saveDb_rewrites_file (@nil Archive) two_records Sample.fresh_disk).
  constructor.
Defined.

(** A load leaves a text that is no store where it is. *)
Lemma loadDb_keeps_garbage :
  Db.db_text (snd (Db.loadDb (element := Archive) (Sample.disk_with "oops")))
  = Some "oops".
Proof.
  apply (loadDb_keeps_file (Sample.disk_with "oops") "oops"). reflexivity.
Defined.

(** Two records saved and loaded again. *)
Lemma two_records_come_back :
  fst (Db.loadDb (snd (Db.saveDb two_records Sample.fresh_disk)))
  = Normal two_records.
Proof.
  apply (saveDb_then_loadDb two_records Sample.fresh_disk).
  - constructor.
  - reflexivity.
Defined.

Lemma loadDb_twice_on_sample_disk :
  fst (Db.loadDb Sample.fresh_disk) = Normal (@nil Archive) /\
  fst (Db.loadDb (snd (Db.loadDb (element := Archive) Sample.fresh_disk)))
  = Normal (@nil Archive).
Proof.
  apply (loadDb_twice_on_fresh_disk Sample.fresh_disk).
  - reflexivity.
  - constructor.
  - reflexivity.
Defined.

End db_more_samples.

(* ================================================================== *)
(** * More about the allow-list: how [CORS_ORIGINS] is read *)
(* ================================================================== *)

Section cors_more.

Import Js.

(** ** [trim] *)

Lemma trimStart_head (s : string) :
  trimStart s = "" \/
  exists c r, trimStart s = String c r /\ is_space c = false.
Proof.
  induction s as [|c r IH]; cbn; [now left|].
  destruct (is_space c) eqn:Sp; [exact IH | right; eauto].
Qed.

Lemma trimEnd_head (c : ascii) (r : string) :
  is_space c = false -> exists r', trimEnd (String c r) = String c r'.
Proof.
  intros Sp. cbn. destruct (trimEnd r); rewrite ?Sp; eauto.
Qed.

Lemma trimEnd_cons (c : ascii) (r : string) :
  trimEnd (String c r) =
  match trimEnd r with
  | EmptyString => if is_space c then EmptyString else String c EmptyString
  | String d r' => String c (String d r')
  end.
Proof. cbn. now destruct (trimEnd r). Qed.

Lemma trimEnd_idempotent (s : string) : trimEnd (trimEnd s) = trimEnd s.
Proof.
  induction s as [|c r IH]; [reflexivity|]. rewrite trimEnd_cons.
  destruct (trimEnd r) as [|d r'] eqn:E.
  - destruct (is_space c) eqn:Sp; [reflexivity|]. cbn. now rewrite Sp.
  - rewrite trimEnd_cons, IH. reflexivity.
Qed.

Lemma trim_idempotent (s : string) : trim (trim s) = trim s.
Proof.
  unfold trim. destruct (trimStart_head s) as [-> | (c & r & -> & Sp)].
  - reflexivity.
  - destruct (trimEnd_head c r Sp) as (r' & E). rewrite E.
    cbn [trimStart]. rewrite Sp, <- E. apply trimEnd_idempotent.
Qed.

(** [trim] gives a part of the string: it brings in no character. *)
Lemma trimStart_chars (c : ascii) (s : string) :
  In c (list_ascii_of_string (trimStart s)) -> In c (list_ascii_of_string s).
Proof.
  induction s as [|d r IH]; cbn; [auto|].
  destruct (is_space d); cbn; auto.
Qed.

Lemma trimEnd_chars (c : ascii) (s : string) :
  In c (list_ascii_of_string (trimEnd s)) -> In c (list_ascii_of_string s).
Proof.
  induction s as [|d r IH]; cbn; [auto|].
  destruct (trimEnd r) as [|e r'].
  - destruct (is_space d); cbn; tauto.
  - cbn in *. tauto.
Qed.

Lemma trim_chars (c : ascii) (s : string) :
  In c (list_ascii_of_string (trim s)) -> In c (list_ascii_of_string s).
Proof. intros I. now apply trimStart_chars, trimEnd_chars. Qed.

(** ** [split] *)

Lemma split_nonempty (sep : ascii) (s : string) : split sep s <> [].
Proof.
  destruct s as [|c r]; cbn; [discriminate|].
  destruct (Ascii.eqb c sep); [discriminate|].
  destruct (split sep r); discriminate.
Qed.

Lemma split_pieces (sep : ascii) (s piece : string) :
  In piece (split sep s) -> ~ In sep (list_ascii_of_string piece).
Proof.
  revert piece. induction s as [|c r IH]; cbn; intros piece.
  - intros [<- | []]. intros [].
  - destruct (Ascii.eqb_spec c sep) as [->|Other].
    + intros [<- | Later]; [intros [] | now apply IH].
    + pose proof (split_nonempty sep r) as Some.
      destruct (split sep r) as [|first later]; [contradiction|].
      intros [<- | Later].
      * cbn. intros [E | Inside]; [contradiction|].
        apply (IH first); [now left | assumption].
      * apply IH. now right.
Qed.

Lemma split_whole (sep : ascii) (s : string) :
  ~ In sep (list_ascii_of_string s) -> split sep s = [s].
Proof.
  induction s as [|c r IH]; cbn; [reflexivity|]. intros Free.
  destruct (Ascii.eqb_spec c sep) as [->|_]; [tauto|].
  rewrite IH by tauto. reflexivity.
Qed.

Lemma split_at (sep : ascii) (s rest : string) :
  ~ In sep (list_ascii_of_string s) ->
  split sep (s ++ String sep rest) = s :: split sep rest.
Proof.
  induction s as [|c r IH]; cbn; intros Free.
  - now rewrite Ascii.eqb_refl.
  - destruct (Ascii.eqb_spec c sep) as [->|_]; [tauto|].
    rewrite IH by tauto. reflexivity.
Qed.

Lemma split_concat (sep : ascii) (first : string) (later : list string) :
  Forall (fun piece => ~ In sep (list_ascii_of_string piece)) (first :: later) ->
  split sep (String.concat (String sep "") (first :: later)) = first :: later.
Proof.
  revert first. induction later as [|second later IH]; intros first Free.
  - apply split_whole. now inversion Free.
  - inversion Free as [|? ? Ffirst Flater]; subst.
    change (String.concat (String sep "") (first :: second :: later))
      with (first ++ String sep
              (String.concat (String sep "") (second :: later)))%string.
    rewrite split_at by assumption. now rewrite IH.
Qed.

(** ** The extras *)

(** An origin as [CORS_ORIGINS] can list it: not empty, with no comma and no
    white space at either end. *)
Definition listable (o : string) : Prop :=
  o <> "" /\ trim o = o /\ ~ In ","%char (list_ascii_of_string o).

(** Every origin read from [CORS_ORIGINS] is trimmed, not empty and free of
    commas, whatever the text of the variable: empty pieces (two commas in a
    row, a comma at the end, blanks only) are dropped. *)
Theorem extra_origins_are_clean (env o : string) :
  In o (Cors.extra env) ->
  o <> "" /\ trim o = o /\ ~ In ","%char (list_ascii_of_string o).
Proof.
  unfold Cors.extra. rewrite filter_In, in_map_iff.
  intros [(piece & <- & Piece) Kept]. repeat split.
  - intros E. rewrite E in Kept. discriminate.
  - apply trim_idempotent.
  - intros Comma. apply trim_chars in Comma.
    now apply (split_pieces _ _ _ Piece).
Qed.

(** The extras of the model read back what was joined, blanks being the
    blanks [Js.trim] strips. *)
Lemma extra_of_joined (origins : list string) :
  Forall listable origins ->
  Cors.extra (String.concat "," origins) = origins.
Proof.
  intros Clean. unfold Cors.extra.
  destruct origins as [|first later]; [reflexivity|].
  rewrite (split_concat ","%char first later).
  - induction Clean as [|o l (Some & Trimmed & _) _ IH]; [reflexivity|].
    cbn [map List.filter]. rewrite Trimmed.
    apply String.eqb_neq in Some. rewrite Some. cbn [negb]. now rewrite IH.
  - eapply Forall_impl; [|exact Clean]. now intros o (_ & _ & Free).
Qed.

(** [CORS_ORIGINS] reads back what was written into it.  On ASCII text:
    origins of ASCII characters that are not empty, have no blank at either
    end and no comma, joined by commas, come out as the same list, in the
    same order, repetitions included. *)
Theorem extra_reads_back_ascii (origins : list string) :
  Forall (fun o => listable o /\ Text.is_ascii o = true) origins ->
  Cors.extra (String.concat "," origins) = origins.
Proof.
  intros Clean. apply extra_of_joined.
  eapply Forall_impl; [|exact Clean]. now intros o [Listable _].
Qed.

(** ** The order of the allow-list *)

Lemma Set_spread_app (a b seen : list string) :
  Set_spread seen (a ++ b) = Set_spread (Set_spread seen a) b.
Proof.
  revert seen. induction a as [|x a IH]; intros seen; [reflexivity|].
  cbn. apply IH.
Qed.

Lemma Set_spread_distinct (l seen : list string) :
  NoDup (seen ++ l) -> Set_spread seen l = seen ++ l.
Proof.
  revert seen. induction l as [|x l IH]; intros seen Distinct; cbn.
  - now rewrite app_nil_r.
  - assert (existsb (String.eqb x) seen = false) as ->.
    { destruct (existsb (String.eqb x) seen) eqn:E; [|reflexivity].
      apply existsb_exists in E. destruct E as (y & Hy & Ey).
      apply String.eqb_eq in Ey. subst y.
      apply NoDup_remove_2 in Distinct. destruct Distinct.
      apply in_or_app. now left. }
    rewrite IH; rewrite <- app_assoc; [reflexivity | exact Distinct].
Qed.

Lemma Set_spread_grows (l seen : list string) :
  exists rest,
    Set_spread seen l = seen ++ rest /\
    forall x, In x rest <-> In x l /\ ~ In x seen.
Proof.
  revert seen. induction l as [|x l IH]; intros seen; cbn.
  - exists []. split; [now rewrite app_nil_r | cbn; tauto].
  - destruct (existsb (String.eqb x) seen) eqn:E.
    + destruct (IH seen) as (rest & -> & Rest). exists rest.
      split; [reflexivity|]. intros y. rewrite Rest.
      apply existsb_exists in E. destruct E as (z & Hz & Ez).
      apply String.eqb_eq in Ez. subst z.
      split; [tauto | intros [[<- | Hy] Ny]; tauto].
    + destruct (IH (seen ++ [x])) as (rest & -> & Rest).
      exists (x :: rest). split; [now rewrite <- app_assoc|].
      intros y. cbn. rewrite Rest, in_app_iff. cbn.
      assert (~ In x seen) as Nx.
      { intros Hx.
        assert (existsb (String.eqb x) seen = true) as C; [|congruence].
        apply existsb_exists. exists x.
        split; [assumption | apply String.eqb_refl]. }
      destruct (string_dec x y) as [<- | Other]; tauto.
Qed.

(** [CORS_ORIGINS] extends the allow-list and never overrides it: the
    allow-list is the default list, whole and in its order, followed by the
    configured origins that are no default. *)
Theorem allowedOrigins_extends_defaults (CORS_ORIGINS : option string) :
  exists rest,
    Cors.allowedOrigins CORS_ORIGINS = Cors.defaultAllowedOrigins ++ rest /\
    forall o,
      In o rest <->
      (exists env, CORS_ORIGINS = Some env /\ In o (Cors.extra env)) /\
      ~ In o Cors.defaultAllowedOrigins.
Proof.
  assert (forall o, ~ In o (@nil string)) as Nil by (intros o []).
  destruct CORS_ORIGINS as [env|]; unfold Cors.allowedOrigins.
  - destruct (String.eqb_spec env "") as [->|Given]; cbn [negb].
    + exists []. split; [now rewrite app_nil_r|]. intros o.
      split; [intros [] | intros [(env & E & X) _]].
      injection E as <-. exact X.
    + rewrite Set_spread_app.
      rewrite (Set_spread_distinct Cors.defaultAllowedOrigins [])
        by apply defaultAllowedOrigins_NoDup.
      cbn [app].
      destruct (Set_spread_grows (Cors.extra env) Cors.defaultAllowedOrigins)
        as (rest & -> & Rest).
      exists rest. split; [reflexivity|]. intros o. rewrite Rest.
      split.
      * intros [X D]. split; [eauto | assumption].
      * intros [(env' & E & X) D]. injection E as <-. now split.
  - exists []. split; [now rewrite app_nil_r|]. intros o.
    split; [intros [] | intros [(env & E & _) _]; discriminate].
Qed.

End cors_more.

Section cors_more_samples.

Import Js.

Lemma extra_of_tidy_variable :
  Cors.extra "https://a.com,https://b.com" = ["https://a.com"; "https://b.com"].
Proof.
  apply (extra_reads_back_ascii ["https://a.com"; "https://b.com"]).
  repeat constructor; try discriminate; vm_compute; intuition discriminate.
Defined.

(** A variable written with blanks, an empty piece and a repetition. *)
Lemma untidy_piece_is_clean :
  "https://a.com" <> "" /\ trim "https://a.com" = "https://a.com" /\
  ~ In ","%char (list_ascii_of_string "https://a.com").
Proof.
  apply (extra_origins_are_clean
           " https://a.com , ,https://b.com,https://a.com," "https://a.com").
  vm_compute. left. reflexivity.
Defined.

End cors_more_samples.

(* ================================================================== *)
(** * More about the routes: answers, store and disk over a run *)
(* ================================================================== *)

Section server_more.

Import Js.
Import Server.
Context `{Db.JSON Archive}.

Lemma serve_rejected (uuid now : string) (req : upload_request) (s : state) :
  accepts req = false ->
  exists msg,
    serve (POST_upload uuid now req) s =
    ({| status := 400; json := ErrorJson msg |}, s).
Proof.
  intros Rej. destruct (upload_rejected uuid now req s Rej) as (msg & U).
  exists msg. unfold serve. cbn [route]. now rewrite U.
Qed.

Lemma serve_get_file (id0 : string) (s : state) :
  serve (GET_file id0) s = (fst (serve (GET_file id0) s), s) /\
  (status (fst (serve (GET_file id0) s)) = 200 \/
   status (fst (serve (GET_file id0) s)) = 404).
Proof.
  unfold serve. cbn [route].
  destruct (find (fun a => id a =? id0) (archives s)) as [a|] eqn:F.
  - rewrite (get_file_found id0 a s F). split; [reflexivity | now left].
  - rewrite (get_file_missing id0 s F). split; [reflexivity | now right].
Qed.

(** Either every record gets a verdict, or some record makes the callback
    throw. *)
Lemma verdicts_or_throw (wallet : value) (l : list Archive) :
  Forall (fun a => exists keep, verdict wallet a = Normal keep) l \/
  exists a e, In a l /\ verdict wallet a = Throw e.
Proof.
  induction l as [|a l [All | (b & e & Hb & Eb)]].
  - left. constructor.
  - destruct (verdict wallet a) as [keep|e] eqn:E.
    + left. constructor; eauto.
    + right. exists a, e. split; [now left | assumption].
  - right. exists b, e. split; [now right | assumption].
Qed.

(** What the listing leaves behind: the state as it was, but for one line on
    the console when the answer is 500. *)
Lemma list_files_state (wallet : value) (s : state) :
  (status (fst (serve (GET_files wallet) s)) = 200 /\
   snd (serve (GET_files wallet) s) = s) \/
  (status (fst (serve (GET_files wallet) s)) = 500 /\
   truthy wallet = true /\
   (exists a e, In a (archives s) /\ verdict wallet a = Throw e) /\
   exists line,
     snd (serve (GET_files wallet) s) =
     {| archives := archives s;
        world := {| Db.files := Db.files (world s);
                    Db.faults := Db.faults (world s);
                    Db.console := Db.console (world s) ++ [line] |} |}).
Proof.
  unfold serve. cbn [route].
  destruct (truthy wallet) eqn:T.
  - destruct (verdicts_or_throw wallet (archives s)) as [All | Bad].
    + rewrite (list_files_filtered wallet s T All). left. split; reflexivity.
    + right. destruct Bad as (a & e & Ha & Ea).
      unfold list_files, try_catch, bind at 1, get. rewrite T. unfold bind.
      destruct (Js.filter (wallet_matches wallet) (archives s) s)
        as [[items|e'] s'] eqn:F.
      * assert (Forall (fun a => exists keep, verdict wallet a = Normal keep)
                       (archives s)) as All
          by (apply (filter_wallet_inv wallet _ items s); now rewrite F).
        rewrite Forall_forall in All. destruct (All a Ha) as (keep & E).
        congruence.
      * pose proof (filter_wallet_state wallet (archives s) s) as St.
        rewrite F in St. cbn in St. subst s'.
        repeat split; eauto. eexists. reflexivity.
  - rewrite (list_files_all wallet s T). left. split; reflexivity.
Qed.

(** The answers of the three handlers, for a request that has reached its
    handler. *)
Lemma handler_statuses (r : request) (s : state) :
  match r with
  | POST_upload _ _ req =>
      status (fst (serve r s)) = if accepts req then 201 else 400
  | GET_files wallet =>
      status (fst (serve r s)) = 200 \/
      (status (fst (serve r s)) = 500 /\ truthy wallet = true /\
       exists a e, In a (archives s) /\ verdict wallet a = Throw e)
  | GET_file _ =>
      status (fst (serve r s)) = 200 \/ status (fst (serve r s)) = 404
  end.
Proof.
  destruct r as [uuid now req | wallet | id0].
  - destruct (accepts req) eqn:Acc.
    + destruct (proj1 (accepts_spec req) Acc) as ((f & Ef) & _).
      now rewrite (serve_accepted uuid now req f s Ef Acc).
    + destruct (serve_rejected uuid now req s Acc) as (msg & ->). reflexivity.
  - destruct (list_files_state wallet s) as [[Ok _] | (Ko & T & Bad & _)];
      [now left | right; auto].
  - apply serve_get_file.
Qed.

(** No exception leaves a handler: the [try]/[catch] of each of the three
    returns a response. *)
Lemma handlers_return (r : request) (s : state) :
  route r s = (Normal (fst (serve r s)), snd (serve r s)).
Proof.
  unfold serve. destruct r as [uuid now req | wallet | id0]; cbn [route].
  - destruct (accepts req) eqn:Acc.
    + destruct (proj1 (accepts_spec req) Acc) as ((f & Ef) & _).
      now rewrite (upload_accepted uuid now req f s Ef Acc).
    + destruct (upload_rejected uuid now req s Acc) as (msg & ->).
      reflexivity.
  - destruct (list_files_returns wallet s) as (res & R).
    destruct (list_files wallet s) as [c s']. cbn in R. now subst c.
  - destruct (find (fun a => id a =? id0) (archives s)) as [a|] eqn:F.
    + now rewrite (get_file_found id0 a s F).
    + now rewrite (get_file_missing id0 s F).
Qed.

(** The answers of the routes.  [POST /api/upload]: when
    [upload.single("file")] hands the request on, the handler answers 201 if
    the request has a file and a [hash] that is a non-empty string, 400 if
    not, and never 500, whatever becomes of the save; when the middleware
    fails, the handler is skipped and the global error handler answers 500
    with its fixed body (403 for the one message of the CORS check), prints
    one line, and store and backing file are as before.  The handler of
    [GET /api/files] answers 200, or 500 when a filter is given and the
    callback throws on a stored record; the handler of [GET /api/files/:id]
    answers 200 or 404. *)
Theorem route_answers :
  (forall uuid now m s,
     match m with
     | Route.Passed req =>
         status (fst (Route.post_upload uuid now m s))
         = if accepts req then 201 else 400
     | Route.Failed err =>
         fst (Route.post_upload uuid now m s)
         = (if message err =? "Not allowed by CORS" then Cors.blocked
            else internal_server_error) /\
         archives (snd (Route.post_upload uuid now m s)) = archives s /\
         Db.files (world (snd (Route.post_upload uuid now m s)))
         = Db.files (world s) /\
         Db.console (world (snd (Route.post_upload uuid now m s)))
         = Db.console (world s)
           ++ [("Unhandled error: " ++ message err)%string]
     end) /\
  (forall wallet s,
     status (fst (serve (GET_files wallet) s)) = 200 \/
     (status (fst (serve (GET_files wallet) s)) = 500 /\
      truthy wallet = true /\
      exists a e, In a (archives s) /\ verdict wallet a = Throw e)) /\
  (forall id0 s,
     status (fst (serve (GET_file id0) s)) = 200 \/
     status (fst (serve (GET_file id0) s)) = 404).
Proof.
  split; [|split].
  - intros uuid now [req | err] s.
    + exact (handler_statuses (POST_upload uuid now req) s).
    + unfold Route.post_upload, on_world, Cors.error_handler, bind,
        Db.console_error, modify, ret.
      destruct (message err =? "Not allowed by CORS"); repeat split.
  - intros wallet s. exact (handler_statuses (GET_files wallet) s).
  - intros id0 s. exact (handler_statuses (GET_file id0) s).
Qed.

Lemma status_201_added (r : request) (s : state) :
  (status (fst (serve r s)) =? 201)%nat = negb (length (added r) =? 0)%nat.
Proof.
  destruct r as [uuid now req | wallet | id0]; cbn [added].
  - destruct (accepts req) eqn:Acc.
    + destruct (proj1 (accepts_spec req) Acc) as ((f & Ef) & _).
      now rewrite (serve_accepted uuid now req f s Ef Acc), Ef.
    + destruct (serve_rejected uuid now req s Acc) as (msg & ->).
      destruct (file req); reflexivity.
  - destruct (list_files_state wallet s) as [[-> _] | (-> & _)]; reflexivity.
  - destruct (serve_get_file id0 s) as [_ [-> | ->]]; reflexivity.
Qed.

Lemma added_rev (r : request) : rev (added r) = added r.
Proof.
  destruct r as [uuid now req | wallet | id0]; try reflexivity.
  cbn. destruct (file req); [destruct (accepts req)|]; reflexivity.
Qed.

Lemma run_archives (rs : list request) (s : state) :
  archives (snd (run rs s)) = rev (flat_map added rs) ++ archives s.
Proof.
  revert s. induction rs as [|r rs IH]; intros s; [reflexivity|].
  cbn [run flat_map]. pose proof (serve_archives r s) as Step.
  destruct (serve r s) as [res s1]. specialize (IH s1).
  destruct (run rs s1) as [ress s2]. cbn [fst snd] in *.
  now rewrite IH, Step, rev_app_distr, added_rev, app_assoc.
Qed.

Lemma run_created (rs : list request) (s : state) :
  length (List.filter (fun res => (status res =? 201)%nat) (fst (run rs s)))
  = length (flat_map added rs).
Proof.
  revert s. induction rs as [|r rs IH]; intros s; [reflexivity|].
  cbn [run flat_map]. pose proof (status_201_added r s) as Step.
  destruct (serve r s) as [res s1]. specialize (IH s1).
  destruct (run rs s1) as [ress s2]. cbn [fst snd List.filter] in *.
  rewrite length_app, Step.
  destruct (added r) as [|a [|b l]] eqn:A; cbn; rewrite ?IH; try reflexivity.
  destruct r as [uuid now req | wallet | id0]; try discriminate.
  cbn in A. destruct (file req); [destruct (accepts req)|]; discriminate.
Qed.

(** Over any run of requests the store only grows at its head: it ends as
    the records of the accepted uploads, the last accepted first, before the
    records it started with, unchanged and in their order; and it has grown
    by one record for each answer 201, by none for any other answer. *)
Theorem store_after_run (rs : list request) (s : state) :
  archives (snd (run rs s)) = rev (flat_map added rs) ++ archives s /\
  length (archives (snd (run rs s))) =
  length (List.filter (fun res => (status res =? 201)%nat) (fst (run rs s)))
  + length (archives s).
Proof.
  split; [apply run_archives|].
  now rewrite run_archives, length_app, length_rev, run_created.
Qed.

(** ** Upload, then look up *)

(** A record can be fetched by its id as soon as its upload is answered:
    after an accepted upload, [GET /api/files/:id] with the id just drawn
    returns the record just created, also when an older record has the same
    id. *)
Theorem upload_then_get_file (uuid now : string) (req : upload_request)
        (f : File.t) (s : state) :
  file req = Some f -> accepts req = true ->
  get_file uuid (snd (upload uuid now req s)) =
  (Normal {| status := 200; json := ArchiveJson (created uuid now f req) |},
   snd (upload uuid now req s)).
Proof.
  intros Ef Acc. rewrite (upload_accepted uuid now req f s Ef Acc).
  apply get_file_found. cbn. now rewrite String.eqb_refl.
Qed.

Lemma toLowerCase_nonempty (w w' : string) :
  toLowerCase w' = toLowerCase w -> w <> "" -> w' <> "".
Proof. intros E N ->. destruct w; [now destruct N | discriminate]. Qed.

(** The listing of the model after an upload with a wallet, letters folded
    as [Js.toLowerCase] folds them. *)
Lemma upload_then_list_same_wallet (uuid now : string) (req : upload_request)
        (f : File.t) (w w' : string) (s : state) :
  file req = Some f -> accepts req = true ->
  body_walletAddress req = Str w -> w <> "" ->
  toLowerCase w' = toLowerCase w ->
  Forall (fun a => forall items, walletAddress a <> Arr items) (archives s) ->
  fst (list_files (Str w') (snd (upload uuid now req s))) =
  Normal {| status := 200;
            json := ItemsJson (created uuid now f req
                               :: List.filter (same_wallet w') (archives s)) |}.
Proof.
  intros Ef Acc Ew Nw Same Typed.
  pose proof (toLowerCase_nonempty w w' Same Nw) as Nw'.
  rewrite (upload_accepted uuid now req f s Ef Acc).
  assert (walletAddress (created uuid now f req) = Str w) as Mine.
  { cbn. rewrite Ew. unfold Js.or. cbn.
    destruct (String.eqb_spec w ""); [contradiction | reflexivity]. }
  rewrite list_files_filtered.
  - cbn [fst snd archives List.filter]. unfold kept at 1.
    rewrite (verdict_string w' w _ Mine), Same, String.eqb_refl.
    do 4 f_equal. apply filter_ext_in. intros a Ha.
    rewrite Forall_forall in Typed. unfold kept.
    now rewrite (verdict_same_wallet w' a Nw' (Typed a Ha)).
  - now apply truthy_Str.
  - cbn [snd archives]. constructor.
    + rewrite (verdict_string w' w _ Mine). eauto.
    + rewrite Forall_forall in *. intros a Ha.
      exists (same_wallet w' a). apply verdict_same_wallet; auto.
Qed.

(** A record uploaded with a wallet is found under that wallet, however the
    letters are cased.  On ASCII text: after an accepted upload whose
    [walletAddress] is the non-empty ASCII string [w], on a store in which
    every [walletAddress] is absent or an ASCII string, the listing filtered
    by any ASCII [w'] equal to [w] up to the case of letters returns the new
    record first, then the older records that match. *)
Theorem upload_then_list_by_ascii_wallet
        (uuid now : string) (req : upload_request)
        (f : File.t) (w w' : string) (s : state) :
  file req = Some f -> accepts req = true ->
  body_walletAddress req = Str w -> w <> "" ->
  Text.is_ascii w = true -> Text.is_ascii w' = true ->
  toLowerCase w' = toLowerCase w ->
  Forall (fun a => Text.ascii_wallet a = true) (archives s) ->
  fst (list_files (Str w') (snd (upload uuid now req s))) =
  Normal {| status := 200;
            json := ItemsJson (created uuid now f req
                               :: List.filter (same_wallet w') (archives s)) |}.
Proof.
  intros Ef Acc Ew Nw _ _ Same Ascii.
  exact (upload_then_list_same_wallet uuid now req f w w' s Ef Acc Ew Nw Same
           (ascii_wallet_typed _ Ascii)).
Qed.

(** ** Letter case *)

Lemma verdict_case (w w' : string) (a : Archive) :
  toLowerCase w' = toLowerCase w ->
  verdict (Str w') a = verdict (Str w) a.
Proof.
  intros Same. unfold verdict, wallet_matches, bind, call_toLowerCase, ret.
  destruct (Js.or (walletAddress a) (Str "")); try reflexivity.
  cbn. now rewrite Same.
Qed.

Lemma filter_case {S} (w w' : string) (l : list Archive) (s : S) :
  toLowerCase w' = toLowerCase w ->
  Js.filter (wallet_matches (Str w')) l s = Js.filter (wallet_matches (Str w)) l s.
Proof.
  intros Same. induction l as [|a l IH]; [reflexivity|].
  cbn [Js.filter]. unfold bind.
  rewrite !wallet_matches_verdict, (verdict_case w w' a Same).
  destruct (verdict (Str w) a); [|reflexivity].
  now rewrite IH.
Qed.

(** The filter does not tell apart two wallets that differ in letter case
    only: on every state, stores with array wallets included, the two
    listings give the same answer and leave the same state. *)
Theorem list_files_ignores_case (w w' : string) (s : state) :
  toLowerCase w' = toLowerCase w ->
  list_files (Str w') s = list_files (Str w) s.
Proof.
  intros Same. unfold list_files, try_catch, bind, get.
  assert (truthy (Str w') = truthy (Str w)) as ->.
  { cbn. f_equal. destruct w, w'; try reflexivity; discriminate. }
  destruct (truthy (Str w)); [|reflexivity].
  now rewrite (filter_case w w' (archives s) s Same).
Qed.

(** ** Store and disk *)

Lemma added_accepts (r : request) :
  added r <> [] ->
  exists uuid now req f,
    r = POST_upload uuid now req /\ file req = Some f /\ accepts req = true /\
    added r = [created uuid now f req].
Proof.
  destruct r as [uuid now req | wallet | id0]; cbn; try now intros [].
  destruct (file req) as [f|] eqn:Ef; [|now intros []].
  destruct (accepts req) eqn:Acc; [|now intros []].
  intros _. exists uuid, now, req, f. now rewrite Ef.
Qed.

Lemma serve_frame (r : request) (s : state) :
  added r = [] ->
  archives (snd (serve r s)) = archives s /\
  Db.files (world (snd (serve r s))) = Db.files (world s) /\
  Db.faults (world (snd (serve r s))) = Db.faults (world s).
Proof.
  intros Nothing. destruct r as [uuid now req | wallet | id0].
  - destruct (accepts req) eqn:Acc.
    + destruct (proj1 (accepts_spec req) Acc) as ((f & Ef) & _).
      cbn in Nothing. rewrite Ef, Acc in Nothing. discriminate.
    + destruct (serve_rejected uuid now req s Acc) as (msg & ->).
      repeat split.
  - destruct (list_files_state wallet s)
      as [[_ ->] | (_ & _ & _ & line & ->)]; repeat split.
  - destruct (serve_get_file id0 s) as [-> _]. repeat split.
Qed.

(** A request that has reached its handler and is not answered 201 (a
    listing, a lookup, an upload the handler refuses) leaves the record
    sequence and [archives.json] as they were, and [db.js] makes none of its
    calls to the file system for it ([Db.faults], which every such call
    consumes, is as before).  The blob the upload middleware stored for a
    refused upload is no part of this. *)
Theorem handlers_that_refuse_leave_db (r : request) (s : state) :
  status (fst (serve r s)) <> 201 ->
  archives (snd (serve r s)) = archives s /\
  Db.files (world (snd (serve r s))) = Db.files (world s) /\
  Db.faults (world (snd (serve r s))) = Db.faults (world s).
Proof.
  intros Not. apply serve_frame.
  pose proof (status_201_added r s) as St.
  destruct (added r); [reflexivity|].
  cbn in St. apply Nat.eqb_eq in St. contradiction.
Qed.

(** An accepted upload is answered 201 whether the save went through or
    not.  Afterwards the record is at the head of the store, and either the
    backing file holds the serialised store and nothing was printed, or the
    file is as it was before the upload and one line on the console tells of
    the failure: the store in memory is then one record ahead of the disk. *)
Theorem upload_persists_or_logs (uuid now : string) (req : upload_request)
        (f : File.t) (s : state) :
  file req = Some f -> accepts req = true ->
  fst (upload uuid now req s)
  = Normal (created_response (created uuid now f req)) /\
  archives (snd (upload uuid now req s))
  = created uuid now f req :: archives s /\
  ((App.in_sync (snd (upload uuid now req s)) /\
    Db.console (world (snd (upload uuid now req s))) = Db.console (world s))
   \/
   (Db.db_text (world (snd (upload uuid now req s))) = Db.db_text (world s) /\
    exists err,
      Db.console (world (snd (upload uuid now req s))) =
      Db.console (world s) ++ [("Failed to save DB: " ++ message err)%string])).
Proof.
  intros Ef Acc. rewrite (upload_accepted uuid now req f s Ef Acc).
  split; [reflexivity | split; [reflexivity|]].
  unfold App.in_sync. cbn [snd archives world].
  apply saveDb_outcome.
Qed.

Lemma serve_quiet (r : request) (s : state) :
  Db.undisturbed (world s) ->
  Db.undisturbed (world (snd (serve r s))) /\
  (added r <> [] -> App.in_sync (snd (serve r s))).
Proof.
  intros U. destruct (added r) as [|a l] eqn:A.
  - destruct (serve_frame r s A) as (_ & _ & Faults).
    split; [|now intros []]. unfold Db.undisturbed in *. now rewrite Faults.
  - assert (added r <> []) as Some by (rewrite A; discriminate).
    destruct (added_accepts r Some) as (uuid & now & req & f & -> & Ef & Acc & _).
    rewrite (serve_accepted uuid now req f s Ef Acc).
    unfold App.in_sync. cbn [snd archives world].
    destruct (saveDb_quiet (created uuid now f req :: archives s) (world s) U)
      as (Text & _ & U').
    split; [exact U' | intros _; exact Text].
Qed.

Lemma run_quiet (rs : list request) (s : state) :
  Db.undisturbed (world s) ->
  App.in_sync s \/ (exists r, In r rs /\ added r <> []) ->
  Db.undisturbed (world (snd (run rs s))) /\ App.in_sync (snd (run rs s)).
Proof.
  revert s. induction rs as [|r rs IH]; intros s U Start.
  - split; [exact U|]. destruct Start as [Sync | (r & [] & _)]. exact Sync.
  - cbn [run]. destruct (serve_quiet r s U) as [U1 Sync1].
    assert (App.in_sync (snd (serve r s)) \/
            exists r', In r' rs /\ added r' <> []) as Next.
    { destruct (added r) as [|a l] eqn:A.
      - destruct (serve_frame r s A) as (Arch & Files & _).
        destruct Start as [Sync | (r' & [<- | In'] & Some)].
        + left. unfold App.in_sync, Db.db_text in *. now rewrite Arch, Files.
        + now destruct Some.
        + right. eauto.
      - left. apply Sync1. discriminate. }
    destruct (serve r s) as [res s1]. cbn [snd] in *.
    specialize (IH s1 U1 Next). destruct (run rs s1) as [ress s2].
    exact IH.
Qed.

(** On a machine that refuses no system call the backing file follows the
    store: once the file holds the serialised store (as after any accepted
    upload), it still does after every further request, whatever the
    requests are. *)
Theorem run_keeps_disk_in_sync (rs : list request) (s : state) :
  Db.undisturbed (world s) ->
  App.in_sync s \/ (exists r, In r rs /\ added r <> []) ->
  App.in_sync (snd (run rs s)).
Proof.
  intros U Start. now apply run_quiet.
Qed.

(** A restart brings the store back.  When the backing file holds the
    serialised store, the machine refuses nothing and [JSON] reads the text
    back as the sequence it printed, [loadDb] at start-up returns exactly the
    records that were in memory, in their order. *)
Theorem restart_recovers_store (s : state) :
  App.in_sync s -> Db.undisturbed (world s) ->
  Db.JSON_parse (Db.JSON_stringify (archives s))
  = Some (Db.JsonArray (archives s)) ->
  exists s', boot (world s) = Normal s' /\ archives s' = archives s.
Proof.
  intros Sync U Back. unfold boot.
  destruct (loadDb_present (world s) _ Sync U) as [Read _].
  rewrite Back in Read.
  destruct (Db.loadDb (world s)) as [r w']. cbn in Read. subst r.
  eexists. split; reflexivity.
Qed.

(** What an unreadable store costs.  Started on a backing file whose text
    does not parse, or is no array, the process runs with an empty store and
    leaves the file alone; its first accepted upload then replaces the text
    by a store of that one record. *)
Theorem first_upload_replaces_unreadable_file
        (w : Db.world) (raw : string) (uuid now : string)
        (req : upload_request) (f : File.t) :
  Db.db_text w = Some raw -> Db.undisturbed w ->
  Db.JSON_parse raw = None \/ Db.JSON_parse raw = Some Db.JsonOther ->
  file req = Some f -> accepts req = true ->
  exists s0,
    boot w = Normal s0 /\ archives s0 = [] /\
    Db.db_text (world s0) = Some raw /\
    Db.db_text (world (snd (upload uuid now req s0)))
    = Some (Db.JSON_stringify [created uuid now f req]).
Proof.
  intros Text U Bad Ef Acc. unfold boot.
  destruct (loadDb_present w raw Text U) as [Read U'].
  pose proof (loadDb_text_kept w raw Text) as Kept.
  assert (match Db.JSON_parse raw with
          | Some (Db.JsonArray items) => items
          | _ => []
          end = []) as Empty by (destruct Bad as [-> | ->]; reflexivity).
  rewrite Empty in Read.
  destruct (Db.loadDb w) as [r w0]. cbn [fst snd] in *. subst r.
  eexists. split; [reflexivity|]. cbn [archives world].
  split; [reflexivity | split; [exact Kept|]].
  rewrite (upload_accepted uuid now req f _ Ef Acc). cbn [snd world archives].
  apply saveDb_quiet, U'.
Qed.

(** ** The gateway before the routes *)

Lemma gateway_closed_world (CORS_ORIGINS : option string) (o : string)
      (w : Db.world) :
  o <> "" -> ~ In o (Cors.allowedOrigins CORS_ORIGINS) ->
  Cors.gateway CORS_ORIGINS (Some o) w =
  (Normal (Some Cors.blocked),
   {| Db.files := Db.files w; Db.faults := Db.faults w;
      Db.console :=
        (Db.console w ++ [("Blocked by CORS: " ++ o)%string])
        ++ ["Unhandled error: Not allowed by CORS"] |}).
Proof.
  intros Present Foreign.
  assert (Cors.includes (Cors.allowedOrigins CORS_ORIGINS) (Some o) = false)
    as Out.
  { destruct (Cors.includes _ _) eqn:I; [|reflexivity].
    apply includes_In in I. contradiction. }
  unfold Cors.gateway, Cors.cors, Cors.origin_callback.
  cbn [falsy_string]. apply String.eqb_neq in Present. rewrite Present, Out.
  cbn [or_string]. rewrite Present. reflexivity.
Qed.

(** The gateway comes before the routes.  A request from a foreign origin is
    answered 403 and served by no route: the store and the backing file are
    as before, uploads included.  A request with no origin, or from a listed
    origin, is served as if there were no gateway. *)
Theorem gateway_guards_routes (CORS_ORIGINS origin : option string)
        (r : request) (s : state) :
  (forall o,
     origin = Some o -> o <> "" ->
     ~ In o (Cors.allowedOrigins CORS_ORIGINS) ->
     fst (App.handle CORS_ORIGINS origin r s) = Cors.blocked /\
     archives (snd (App.handle CORS_ORIGINS origin r s)) = archives s /\
     Db.files (world (snd (App.handle CORS_ORIGINS origin r s)))
     = Db.files (world s)) /\
  (origin = None \/
   (exists o, origin = Some o /\ In o (Cors.allowedOrigins CORS_ORIGINS)) ->
   App.handle CORS_ORIGINS origin r s = serve r s).
Proof.
  split.
  - intros o -> Present Foreign. unfold App.handle, on_world.
    rewrite (gateway_closed_world CORS_ORIGINS o (world s) Present Foreign).
    repeat split.
  - intros Open. unfold App.handle, on_world.
    rewrite gateway_open.
    + now destruct s.
    + destruct Open as [-> | (o & -> & Listed)];
        [left; reflexivity | right; now apply includes_In].
Qed.

(** ** The ids of the store *)

Lemma run_ids (rs : list request) (s : state) :
  map id (archives (snd (run rs s))) =
  rev (flat_map draws rs) ++ map id (archives s).
Proof.
  rewrite run_archives, map_app, map_rev. do 2 f_equal.
  induction rs as [|r rs IH]; [reflexivity|].
  cbn [flat_map]. now rewrite map_app, added_ids, IH.
Qed.

(** C9, amended.  The route compares no ids: the id of a new record is the
    uuid [uuidv4()] returned, and the ids of the store after any run of
    requests are the uuids drawn by the accepted uploads, the last drawn
    first, before the ids the store had at the start.  They are therefore
    pairwise distinct when the ids at the start are, the uuids drawn are,
    and no uuid drawn is an id of the start.  Whatever the request, the
    records already stored stay as they are, behind the records it adds. *)
Theorem ids_distinct_while_uuids_fresh (rs : list request) (s : state) :
  NoDup (map id (archives s)) ->
  NoDup (flat_map draws rs) ->
  (forall u, In u (flat_map draws rs) -> ~ In u (map id (archives s))) ->
  map id (archives (snd (run rs s))) =
  rev (flat_map draws rs) ++ map id (archives s) /\
  NoDup (map id (archives (snd (run rs s)))) /\
  (forall r s1, exists fresh, archives (snd (serve r s1)) = fresh ++ archives s1).
Proof.
  intros Start Drawn Fresh. split; [apply run_ids | split].
  - rewrite run_ids. apply NoDup_app.
    + now apply NoDup_rev.
    + exact Start.
    + intros u Hu. apply Fresh. now apply in_rev.
  - intros r s1. exists (added r). apply serve_archives.
Qed.

End server_more.

Section server_more_samples.

Import Js.
Import Server.
Import Sample.

(** An upload, then the lookup of its id. *)
Lemma get_file_after_upload :
  get_file "u1" (snd (upload "u1" "t1" (note_upload Undefined) empty_store)) =
  (Normal {| status := 200;
             json := ArchiveJson (note_archive "u1" "t1" Null) |},
   snd (upload "u1" "t1" (note_upload Undefined) empty_store)).
Proof.
  apply (upload_then_get_file "u1" "t1" (note_upload Undefined) note_txt
           empty_store); reflexivity.
Defined.

(** An upload with a wallet in mixed case, found under the wallet in upper
    case. *)
Lemma list_by_wallet_after_upload :
  fst (list_files (Str "0XABC")
         (snd (upload "u2" "t2" (note_upload (Str "0xAbC")) empty_store))) =
  Normal {| status := 200;
            json := ItemsJson [note_archive "u2" "t2" (Str "0xAbC")] |}.
Proof.
  apply (upload_then_list_by_ascii_wallet "u2" "t2"
           (note_upload (Str "0xAbC")) note_txt "0xAbC" "0XABC" empty_store);
    try reflexivity; [discriminate | constructor].
Defined.

Lemma list_files_in_two_cases :
  list_files (Str "0XABC") two_wallets = list_files (Str "0xabc") two_wallets.
Proof.
  apply (list_files_ignores_case "0xabc" "0XABC" two_wallets). reflexivity.
Defined.

(** A lookup of an unknown id leaves store and backing file alone. *)
Lemma unknown_id_writes_nothing :
  archives (snd (serve (GET_file "u9") two_wallets)) = archives two_wallets /\
  Db.files (world (snd (serve (GET_file "u9") two_wallets)))
  = Db.files (world two_wallets) /\
  Db.faults (world (snd (serve (GET_file "u9") two_wallets)))
  = Db.faults (world two_wallets).
Proof.
  apply (handlers_that_refuse_leave_db (GET_file "u9") two_wallets).
  discriminate.
Defined.

(** A form whose file part is not named [file]: the middleware fails and the
    error handler answers. *)
Lemma upload_with_unexpected_field :
  fst (Route.post_upload "u1" "t1"
         (Route.Failed (Error "Unexpected field")) two_wallets)
  = internal_server_error /\
  archives (snd (Route.post_upload "u1" "t1"
                   (Route.Failed (Error "Unexpected field")) two_wallets))
  = archives two_wallets.
Proof.
  destruct (proj1 route_answers "u1" "t1"
              (Route.Failed (Error "Unexpected field")) two_wallets)
    as (Res & Store & _).
  split; [exact Res | exact Store].
Defined.

Definition read_only_store : state :=
  {| archives := []; world := read_only_disk |}.

(** An upload on a machine that refuses the write: 201, the record in
    memory, nothing on the disk. *)
Lemma upload_on_read_only_disk :
  fst (upload "u1" "t1" (note_upload Undefined) read_only_store)
  = Normal (created_response (note_archive "u1" "t1" Null)) /\
  archives (snd (upload "u1" "t1" (note_upload Undefined) read_only_store))
  = [note_archive "u1" "t1" Null] /\
  Db.db_text (world (snd (upload "u1" "t1" (note_upload Undefined)
                            read_only_store))) = None.
Proof.
  destruct (upload_persists_or_logs "u1" "t1" (note_upload Undefined) note_txt
              read_only_store eq_refl eq_refl) as (Res & Store & _).
  split; [exact Res | split; [exact Store | reflexivity]].
Defined.

(** Two uploads and two reads: the file holds the store at the end. *)
Lemma disk_in_sync_after_run :
  App.in_sync
    (snd (run (two_uploads ++ [GET_files (Str "0xabc"); GET_file "u9"])
            empty_store)).
Proof.
  apply (run_keeps_disk_in_sync
           (two_uploads ++ [GET_files (Str "0xabc"); GET_file "u9"])
           empty_store).
  - constructor.
  - right. exists (POST_upload "u1" "t1" (note_upload Undefined)).
    split; [left; reflexivity | discriminate].
Defined.

(** A foreign origin uploads nothing; no origin uploads. *)
Lemma upload_through_gateway :
  fst (App.handle None (Some "http://evil.example")
         (POST_upload "u1" "t1" (note_upload Undefined)) empty_store)
  = Cors.blocked /\
  archives (snd (App.handle None (Some "http://evil.example")
                   (POST_upload "u1" "t1" (note_upload Undefined))
                   empty_store)) = [] /\
  App.handle None None (POST_upload "u1" "t1" (note_upload Undefined))
    empty_store
  = serve (POST_upload "u1" "t1" (note_upload Undefined)) empty_store.
Proof.
  destruct (gateway_guards_routes None (Some "http://evil.example")
              (POST_upload "u1" "t1" (note_upload Undefined)) empty_store)
    as [Closed _].
  destruct (Closed "http://evil.example" eq_refl) as (Res & Store & _).
  - discriminate.
  - vm_compute. intuition discriminate.
  - split; [exact Res | split; [exact Store|]].
    apply (gateway_guards_routes None None). left. reflexivity.
Defined.

(** Two uploads under two uuids: the ids of the store are the two uuids. *)
Lemma ids_after_two_uploads :
  map id (archives (snd (run two_uploads empty_store))) = ["u2"; "u1"] /\
  NoDup (map id (archives (snd (run two_uploads empty_store)))).
Proof.
  destruct (ids_distinct_while_uuids_fresh two_uploads empty_store)
    as (Ids & Distinct & _).
  - constructor.
  - repeat constructor; cbn; intuition discriminate.
  - intros u _ [].
  - split; [exact Ids | exact Distinct].
Defined.

End server_more_samples.

Section restart_samples.

Import Js.
Import Server.
Import Rows.

Definition after_two_uploads : state :=
  snd (run two_uploads Sample.empty_store).

(** The process stopped after two uploads and started again. *)
Lemma restart_after_two_uploads :
  exists s', boot (world after_two_uploads) = Normal s' /\
             archives s' = archives after_two_uploads.
Proof.
  apply (restart_recovers_store after_two_uploads).
  - reflexivity.
  - constructor.
  - reflexivity.
Defined.

(** The process started on a file that is no store, then one upload. *)
Lemma upload_over_garbage :
  exists s0,
    boot (Sample.disk_with "oops") = Normal s0 /\ archives s0 = [] /\
    Db.db_text (world s0) = Some "oops" /\
    Db.db_text (world (snd (upload "u1" "t1" (Sample.note_upload Undefined) s0)))
    = Some (Db.JSON_stringify
              [created "u1" "t1" Sample.note_txt (Sample.note_upload Undefined)]).
Proof.
  apply (first_upload_replaces_unreadable_file (Sample.disk_with "oops") "oops"
           "u1" "t1" (Sample.note_upload Undefined) Sample.note_txt).
  - reflexivity.
  - constructor.
  - left. reflexivity.
  - reflexivity.
  - reflexivity.
Defined.

Definition same_uuid_twice : list request :=
  [ POST_upload "u1" "t1" (Sample.note_upload Undefined);
    POST_upload "u1" "t2" (Sample.note_upload Undefined) ].

(** C9, as the claim has it, fails where [uuidv4()] returns one value twice:
    both uploads are answered 201 and the store holds two records of one
    id.  It fails at start-up too: a backing file that holds two records of
    one id is loaded as it is. *)
Lemma repeated_uuid_repeats_id :
  (map status (fst (run same_uuid_twice Sample.empty_store)) = [201; 201] /\
   map id (archives (snd (run same_uuid_twice Sample.empty_store)))
   = ["u1"; "u1"] /\
   ~ NoDup (map id (archives (snd (run same_uuid_twice Sample.empty_store)))))
  /\
  (exists s0,
     boot (Sample.disk_with
             (Db.JSON_stringify [ Sample.note_archive "u1" "t2" Null;
                                  Sample.note_archive "u1" "t1" Null ]))
     = Normal s0 /\
     map id (archives s0) = ["u1"; "u1"]).
Proof.
  split.
  - split; [reflexivity | split; [reflexivity|]].
    intros Distinct. inversion Distinct as [|u l Out _]; subst.
    apply Out. left. reflexivity.
  - eexists. split; reflexivity.
Defined.

End restart_samples.

(* ================================================================== *)
(** * The upload middleware: file names and the size limit *)
(* ================================================================== *)

Section multer_facts.

Import Js.
Import Multer.

Lemma append_same_length (a b x y : string) :
  String.length a = String.length b ->
  (a ++ x)%string = (b ++ y)%string -> a = b.
Proof.
  revert b. induction a as [|c a IH]; intros [|d b]; cbn; try discriminate.
  - reflexivity.
  - intros L E. injection L as L. injection E as -> E.
    f_equal. now apply IH.
Qed.

(** Two stored files never share a name unless they were given the same
    uuid: file names made from uuids of one length (a uuid has 36
    characters) are equal only if the uuids are, whatever the client's file
    names and their extensions. *)
Theorem filename_keeps_uuids_apart (path_extname : string -> string)
        (uuid1 uuid2 : string) (name1 name2 : option string) :
  String.length uuid1 = String.length uuid2 ->
  uuid1 <> uuid2 ->
  filename path_extname uuid1 name1 <> filename path_extname uuid2 name2.
Proof.
  unfold filename. intros Length Apart Same. apply Apart.
  exact (append_same_length _ _ _ _ Length Same).
Qed.

(** ** The size limit *)

Lemma digit_is_no_blank_no_sign (c : ascii) :
  is_digit c = true ->
  is_space c = false /\ Ascii.eqb c "-" = false /\ Ascii.eqb c "+" = false.
Proof.
  destruct c as [[] [] [] [] [] [] [] []]; cbn; intros D;
    try discriminate; repeat split.
Qed.

Lemma digits_of_numeral (d : Decimal.uint) :
  digits (NilEmpty.string_of_uint d) = NilEmpty.string_of_uint d.
Proof.
  induction d; cbn [NilEmpty.string_of_uint digits]; try reflexivity;
    (match goal with
     | |- context [is_digit ?c] =>
         change (is_digit c) with true; cbn iota
     end); now rewrite IHd.
Qed.

Lemma numeral_head (d : Decimal.uint) :
  d <> Decimal.Nil ->
  exists c r, NilEmpty.string_of_uint d = String c r /\ is_digit c = true.
Proof.
  destruct d; [now intros [] | ..]; intros _; cbn; eauto.
Qed.

Lemma to_uint_nonnil (n : N) : N.to_uint n <> Decimal.Nil.
Proof.
  destruct n as [|p]; [discriminate|]. apply DecimalPos.Unsigned.to_uint_nonnil.
Qed.

Lemma parseInt_of_decimal (n : N) :
  (n <= 2 ^ 53)%N -> parseInt_10 (Some (decimal n)) = Num (Z.of_N n).
Proof.
  intros Small. unfold parseInt_10, decimal.
  destruct (numeral_head (N.to_uint n) (to_uint_nonnil n)) as (c & r & E & D).
  destruct (digit_is_no_blank_no_sign c D) as (Sp & Minus & Plus).
  rewrite E. cbn [trimStart]. rewrite Sp, Minus, Plus. cbn [orb].
  rewrite <- E, digits_of_numeral, NilEmpty.usu, DecimalN.Unsigned.of_to.
  rewrite E at 1. cbn [String.eqb].
  assert ((Z.of_N n <=? 2 ^ 53)%Z = true) as ->; [|reflexivity].
  apply Z.leb_le. change (2 ^ 53)%Z with (Z.of_N (2 ^ 53)). lia.
Qed.

(** A whole number of mebibytes in [MAX_FILE_SIZE_MB] is the limit: the
    numeral of [n], for [n] up to [2^53], sets the limit to [n * 1024 * 1024]
    bytes, and the numeral of zero leaves the default of 100 MiB. *)
Theorem fileSize_of_decimal (n : N) :
  (n <= 2 ^ 53)%N ->
  fileSize (Some (decimal n)) =
  Num (Z.of_N (if (n =? 0)%N then 100%N else n) * 1048576).
Proof.
  intros Small. unfold fileSize. rewrite (parseInt_of_decimal n Small).
  unfold number_or, number_truthy.
  destruct (N.eqb_spec n 0) as [->|Positive].
  - reflexivity.
  - assert ((Z.of_N n =? 0)%Z = false) as -> by (apply Z.eqb_neq; lia).
    cbn [negb times_1024]. f_equal. lia.
Qed.

(** The limit is always set.  Whatever [MAX_FILE_SIZE_MB] holds, the limit is
    a number other than zero; and when the variable is unset, or has no
    leading integer, or its leading integer is zero, the limit is 100 MiB. *)
Theorem fileSize_is_set (MAX_FILE_SIZE_MB : option string) :
  fileSize MAX_FILE_SIZE_MB <> NaN /\
  fileSize MAX_FILE_SIZE_MB <> Num 0 /\
  (parseInt_10 MAX_FILE_SIZE_MB = NaN \/ parseInt_10 MAX_FILE_SIZE_MB = Num 0 ->
   fileSize MAX_FILE_SIZE_MB = Num 104857600) /\
  fileSize None = Num 104857600.
Proof.
  unfold fileSize, number_or.
  destruct (parseInt_10 MAX_FILE_SIZE_MB) as [|n|] eqn:P; cbn.
  - repeat split; discriminate.
  - destruct (Z.eqb_spec n 0) as [->|Other]; cbn.
    + repeat split; discriminate.
    + repeat split; try discriminate.
      * intros E. injection E as E. lia.
      * intros [E | E]; [discriminate | injection E as E; contradiction].
  - repeat split; try discriminate. intros [E | E]; discriminate.
Qed.

End multer_facts.

Section multer_samples.

Import Multer.

(** Two files of one name stored under two uuids of four characters. *)
Lemma filenames_of_two_uuids :
  filename (fun _ => ".txt") "5f0c" (Some "note.txt")
  <> filename (fun _ => ".txt") "a1b2" (Some "note.txt").
Proof.
  apply (filename_keeps_uuids_apart (fun _ => ".txt") "5f0c" "a1b2"
           (Some "note.txt") (Some "note.txt")).
  - reflexivity.
  - discriminate.
Defined.

(** [MAX_FILE_SIZE_MB=250]. *)
Lemma fileSize_250 : fileSize (Some "250") = Num 262144000.
Proof.
  apply (fileSize_of_decimal 250). vm_compute. discriminate.
Defined.

End multer_samples.
